(** * Erlang.py: traffic-engineering formulas

    A shallow embedding of the static methods of class [Erlang]
    (src/Erlang.py) that evaluate offered load, Erlang B, Erlang C, the
    waiting time and the channel-dimensioning search.

    Number model.  Python [float] and [int] arguments are embedded as exact
    rationals ([Q]) and integers ([Z]): rounding of binary64 arithmetic is
    not modelled, every statement below is a statement under exact
    arithmetic.  What is modelled of the floating-point behaviour is the
    control flow it causes:
    - true division raises [ZeroDivisionError] on a zero divisor;
    - [math.pow] and the conversion of an [int] operand to [float] raise
      [OverflowError] beyond the binary64 range;
    - [float('inf')] is a value of its own ([PInf]).
    A product or a sum of finite floats that would round to an infinity
    without raising is not modelled; [math.exp] is an argument of the model
    of [calculate_service_level].
    Rationals are compared with [==] ([Qeq]).

    What exact arithmetic leaves out: the rounding of every float result
    (and of [round] on it), the underflow of [math.pow] to zero, the
    rounding of an [int] above [2^53] when it is converted, and the
    overflow of sums and products to [inf].  A statement that depends on
    one of these says "under exact arithmetic".  The two loops whose
    binary64 behaviour differs visibly, those of
    [calculate_blocking_probability] and [calculate_erlang_b], are also
    embedded on binary64 floats ([_f64], primitive floats), to evaluate the
    program itself at concrete inputs. *)

From Stdlib Require Import ZArith QArith Qround Qabs Qpower Qfield.
From Stdlib Require Import List Bool Lia Lqa.
From Stdlib Require Import PrimFloat Uint63.
Import ListNotations.

Open Scope Q_scope.

(** ** Exceptions and the error monad *)

Inductive exn : Set :=
| ValueError
| ZeroDivisionError
| OverflowError.

Inductive result (A : Type) : Type :=
| Ok (a : A)
| Raise (e : exn).

Arguments Ok {A} a.
Arguments Raise {A} e.

Definition bind {A B : Type} (m : result A) (k : A -> result B) : result B :=
  match m with
  | Ok a => k a
  | Raise e => Raise e
  end.

Notation "x <- m ;; k" := (bind m (fun x => k))
  (at level 61, m at next level, right associativity).

(** ** Python arithmetic *)

Definition Qltb (x y : Q) : bool := negb (Qle_bool y x).

(** [a / b] on numbers: [ZeroDivisionError] when [b] is zero. *)
Definition pydiv (a b : Q) : result Q :=
  if Qeq_bool b 0 then Raise ZeroDivisionError else Ok (a / b).

(** [range(lo, hi)] *)
Definition py_range (lo hi : Z) : list Z :=
  map (fun i => (lo + Z.of_nat i)%Z) (seq 0 (Z.to_nat (hi - lo))).

(** Round half to even, the tie rule of the built-in [round]. *)
Definition round_half_even (x : Q) : Z :=
  let f := Qfloor x in
  let r := x - inject_Z f in
  if Qltb r (1#2) then f
  else if Qltb (1#2) r then (f + 1)%Z
  else if Z.even f then f else (f + 1)%Z.

(** [round(x, ndigits)] for [ndigits >= 0]. *)
Definition py_round (x : Q) (ndigits : Z) : Q :=
  let s := inject_Z (10 ^ ndigits) in
  inject_Z (round_half_even (x * s)) / s.

(** ** calculate_erlang (lines 9-24) *)

Definition calculate_erlang (arrival_rate mean_hold_time average_call_time : Q)
  : result Q :=
  if Qltb arrival_rate 0 || Qltb mean_hold_time 0 || Qltb average_call_time 0
  then Raise ValueError
  else
    total_time <- pydiv (mean_hold_time + average_call_time) 60 ;;
    load <- pydiv (arrival_rate * total_time) 60 ;;
    Ok (py_round load 4).

(** ** calculate_blocking_probability (lines 55-70) *)

(** One pass of the body of the [for] loop: [b = 1 + (k * b) / erlangs]. *)
Definition blocking_step (erlangs : Q) (acc : result Q) (k : Z) : result Q :=
  b <- acc ;;
  t <- pydiv (inject_Z k * b) erlangs ;;
  Ok (1 + t).

Definition calculate_blocking_probability (erlangs : Q) (channels : Z)
  : result Q :=
  if Qltb erlangs 0 || (channels <? 1)%Z then Raise ValueError
  else
    b <- fold_left (blocking_step erlangs) (py_range 1 (channels + 1)) (Ok 1) ;;
    pydiv 1 b.

(** ** calculate_erlang_b (lines 27-52) *)

(** The body of the [while True] loop up to the test: the three assignments
    of lines 43-45, returning [(block_percentage, previous_d, previous_e)]. *)
Definition erlang_b_body (erlangs : Q) (channel : Z) (previous_d previous_e : Q)
  : result (Q * Q * Q) :=
  r1 <- pydiv erlangs (inject_Z channel) ;;
  r2 <- pydiv erlangs (inject_Z channel) ;;
  block_percentage <- pydiv (r1 * previous_d) (previous_e + r2 * previous_d) ;;
  r3 <- pydiv erlangs (inject_Z channel) ;;
  let previous_e' := previous_e + r3 * previous_d in
  r4 <- pydiv erlangs (inject_Z channel) ;;
  let previous_d' := r4 * previous_d in
  Ok (block_percentage, previous_d', previous_e').

(** The loop has no bound in the source; [fuel] bounds the number of
    iterations and [None] means the bound was reached. *)
Fixpoint erlang_b_loop (fuel : nat) (erlangs block_level_goal : Q)
    (channel : Z) (previous_d previous_e : Q) : option (result Z) :=
  match fuel with
  | O => None
  | S fuel' =>
      match erlang_b_body erlangs channel previous_d previous_e with
      | Raise e => Some (Raise e)
      | Ok (block_percentage, previous_d', previous_e') =>
          if Qltb block_percentage block_level_goal then Some (Ok channel)
          else erlang_b_loop fuel' erlangs block_level_goal
                 (channel + 1) previous_d' previous_e'
      end
  end.

Definition calculate_erlang_b (fuel : nat) (erlangs block_level_goal : Q)
  : option (result Z) :=
  if Qltb erlangs 0 || Qle_bool block_level_goal 0 || Qle_bool 1 block_level_goal
  then Some (Raise ValueError)
  else erlang_b_loop fuel erlangs block_level_goal 1 1 1.

(** ** Floats with infinities, and the operations that raise [OverflowError] *)

(** A float result: a finite number, an infinity or a NaN.  Only the
    functions that can produce [float('inf')] return this type. *)
Inductive pyfloat : Type :=
| Fin (q : Q)
| PInf
| NInf
| NaN.

(** Round-to-nearest overflow threshold of binary64: a magnitude of at least
    [2^1024 - 2^970] has no finite double. *)
Definition DBL_OVERFLOW : Z := (2 ^ 1024 - 2 ^ 970)%Z.

Definition overflows (x : Q) : bool := Qle_bool (inject_Z DBL_OVERFLOW) (Qabs x).

(** Conversion of an [int] operand to [float]:
    "OverflowError: int too large to convert to float". *)
Definition float_of_int (n : Z) : result Q :=
  if overflows (inject_Z n) then Raise OverflowError else Ok (inject_Z n).

(** [math.pow(x, y)] with an [int] exponent: [ValueError] for [0 ** negative],
    [OverflowError] when the result leaves the double range. *)
Definition math_pow (x : Q) (y : Z) : result Q :=
  _ <- float_of_int y ;;
  if Qeq_bool x 0 && (y <? 0)%Z then Raise ValueError
  else
    let r := Qpower x y in
    if overflows r then Raise OverflowError else Ok r.

Fixpoint fact_upto (n : nat) : Z :=
  match n with
  | O => 1
  | S m => (Z.of_nat (S m) * fact_upto m)%Z
  end.

(** [math.factorial(n)]: an exact [int]; [ValueError] for a negative [n]. *)
Definition math_factorial (n : Z) : result Z :=
  if (n <? 0)%Z then Raise ValueError else Ok (fact_upto (Z.to_nat n)).

(** [float / int]: the [int] is converted first. *)
Definition div_float_int (a : Q) (n : Z) : result Q :=
  d <- float_of_int n ;;
  pydiv a d.

(** ** calculate_erlang_c (lines 73-90) *)

(** One term [math.pow(erlangs, k) / math.factorial(k)] of the generator. *)
Definition poisson_term (erlangs : Q) (k : Z) : result Q :=
  p <- math_pow erlangs k ;;
  f <- math_factorial k ;;
  div_float_int p f.

(** [sum(... for k in range(channels + 1))] *)
Definition poisson_sum (erlangs : Q) (channels : Z) : result Q :=
  fold_left (fun acc k => s <- acc ;; t <- poisson_term erlangs k ;; Ok (s + t))
            (py_range 0 (channels + 1)) (Ok 0).

(** The two assignments inside [try] (lines 85-86). *)
Definition erlang_c_try_body (erlangs : Q) (channels : Z) : result (Q * Q) :=
  p <- math_pow erlangs channels ;;
  f <- math_factorial channels ;;
  left <- div_float_int p f ;;
  c1 <- float_of_int channels ;;
  c2 <- float_of_int channels ;;
  right <- pydiv c1 (c2 - erlangs) ;;
  let numerator := left * right in
  s <- poisson_sum erlangs channels ;;
  let denominator := s + numerator in
  Ok (numerator, denominator).

Definition calculate_erlang_c (erlangs : Q) (channels : Z) : result pyfloat :=
  if Qle_bool (inject_Z channels) erlangs then Ok (Fin 1)
  else
    match erlang_c_try_body erlangs channels with
    | Raise OverflowError => Ok PInf
    | Raise e => Raise e
    | Ok (numerator, denominator) =>
        r <- pydiv numerator denominator ;;
        Ok (Fin r)
    end.

(** ** calculate_waiting_time (lines 93-103) *)

(** [x / d] for a float [x] and a finite [d]. *)
Definition pyfloat_div (x : pyfloat) (d : Q) : result pyfloat :=
  if Qeq_bool d 0 then Raise ZeroDivisionError
  else match x with
       | Fin q => Ok (Fin (q / d))
       | PInf => Ok (if Qltb 0 d then PInf else NInf)
       | NInf => Ok (if Qltb 0 d then NInf else PInf)
       | NaN => Ok NaN
       end.

(** [x * m] for a float [x] and a finite [m]. *)
Definition pyfloat_mul (x : pyfloat) (m : Q) : pyfloat :=
  match x with
  | Fin q => Fin (q * m)
  | PInf => if Qeq_bool m 0 then NaN else if Qltb 0 m then PInf else NInf
  | NInf => if Qeq_bool m 0 then NaN else if Qltb 0 m then NInf else PInf
  | NaN => NaN
  end.

Definition calculate_waiting_time (erlangs : Q) (channels : Z)
    (mean_service_time : Q) : result pyfloat :=
  pw <- calculate_erlang_c erlangs channels ;;
  if Qltb erlangs (inject_Z channels) then
    c <- float_of_int channels ;;
    w <- pyfloat_div pw (c - erlangs) ;;
    Ok (pyfloat_mul w mean_service_time)
  else Ok PInf.

(** Comparison [x >= y] of floats, as Python orders them. *)
Definition pyfloat_ge (x : pyfloat) (y : Q) : Prop :=
  match x with
  | Fin q => y <= q
  | PInf => True
  | NInf | NaN => False
  end.

(** ** Erlang B as the specification writes it

    The recurrence of the specification (section 4.2), stated from its words:
    [B(0) = 1], [B(k) = (load * B(k-1)) / (k + load * B(k-1))]. *)
Fixpoint erlangB_spec (load : Q) (k : nat) : Q :=
  match k with
  | O => 1
  | S k' =>
      (load * erlangB_spec load k')
      / (inject_Z (Z.of_nat k) + load * erlangB_spec load k')
  end.

(** ** Closed forms of the loops *)

(** Value of [b] after [n] passes of the loop of
    [calculate_blocking_probability]. *)
Fixpoint blocking_iter (erlangs : Q) (n : nat) : Q :=
  match n with
  | O => 1
  | S m => 1 + inject_Z (Z.of_nat (S m)) * blocking_iter erlangs m / erlangs
  end.

(** Values of [previous_d] and [previous_e] after [n] passes of the loop of
    [calculate_erlang_b]. *)
Fixpoint running_d (erlangs : Q) (n : nat) : Q :=
  match n with
  | O => 1
  | S m => erlangs / inject_Z (Z.of_nat (S m)) * running_d erlangs m
  end.

Fixpoint running_e (erlangs : Q) (n : nat) : Q :=
  match n with
  | O => 1
  | S m => running_e erlangs m
           + erlangs / inject_Z (Z.of_nat (S m)) * running_d erlangs m
  end.

(** [block_percentage] as computed in pass [n] of that loop: for [n = S m]
    it unfolds to the expression of line 43 on the values of pass [m]. *)
Definition running_block (erlangs : Q) (n : nat) : Q :=
  running_d erlangs n / running_e erlangs n.

(** The term [erlangs ** k / k!] of [calculate_erlang_c] when nothing
    overflows, and the sum of the first [n] terms. *)
Definition term (erlangs : Q) (k : nat) : Q :=
  Qpower erlangs (Z.of_nat k) / inject_Z (fact_upto k).

Fixpoint partial_sum (erlangs : Q) (n : nat) : Q :=
  match n with
  | O => 0
  | S m => partial_sum erlangs m + term erlangs m
  end.

(** [numerator] and [denominator] of [calculate_erlang_c] when nothing
    overflows. *)
Definition erlang_c_numerator (erlangs : Q) (channels : nat) : Q :=
  term erlangs channels
  * (inject_Z (Z.of_nat channels) / (inject_Z (Z.of_nat channels) - erlangs)).

Definition erlang_c_denominator (erlangs : Q) (channels : nat) : Q :=
  partial_sum erlangs (S channels) + erlang_c_numerator erlangs channels.

(** Number of passes after which the search has stopped. *)
Definition fuel_bound (erlangs block_level_goal : Q) : nat :=
  S (Z.to_nat (Qfloor (erlangs / block_level_goal))).

(** ** The metrics functions (lines 118-138, 151-312)

    Arguments annotated [float] are rationals, arguments annotated [int] are
    integers; [int / int] is Python's true division of two integers. *)

(** [a / b] on two [int]s: [ZeroDivisionError] for [b = 0], [OverflowError]
    ("integer division result too large for a float") when the quotient
    leaves the double range; the operands themselves are not converted. *)
Definition div_int_int (a b : Z) : result Q :=
  if (b =? 0)%Z then Raise ZeroDivisionError
  else
    let q := inject_Z a / inject_Z b in
    if overflows q then Raise OverflowError else Ok q.

(** calculate_offered_load (lines 119-127) *)
Definition calculate_offered_load (call_arrival_rate mean_call_duration : Q)
  : Q :=
  call_arrival_rate * mean_call_duration.

(** calculate_utilization (lines 130-138) *)
Definition calculate_utilization (erlangs : Q) (channels : Z) : result Q :=
  if (0 <? channels)%Z then div_float_int erlangs channels else Ok 0.

(** calculate_effective_traffic (lines 152-163) *)
Definition calculate_effective_traffic (offered_load blocking_probability : Q)
  : Q :=
  offered_load * (1 - blocking_probability).

(** calculate_overflow_traffic (lines 166-177) *)
Definition calculate_overflow_traffic (offered_load blocking_probability : Q)
  : Q :=
  offered_load * blocking_probability.

(** calculate_peak_hour_call_attempts (lines 180-191) *)
Definition calculate_peak_hour_call_attempts
    (busy_hour_traffic avg_call_duration : Q) : result Q :=
  per_hour <- pydiv 60 avg_call_duration ;;
  Ok (busy_hour_traffic * per_hour).

(** calculate_call_completion_rate (lines 194-205) *)
Definition calculate_call_completion_rate (completed_calls total_calls : Z)
  : result Q :=
  if (0 <? total_calls)%Z then
    q <- div_int_int completed_calls total_calls ;;
    Ok (q * 100)
  else Ok 0.


(** calculate_traffic_intensity (lines 222-233) *)
Definition calculate_traffic_intensity (erlangs : Q) (channels : Z)
  : result Q :=
  if (0 <? channels)%Z then
    q <- div_float_int erlangs channels ;;
    Ok (q * 100)
  else Ok 0.

(** calculate_network_efficiency (lines 236-247) *)
Definition calculate_network_efficiency (successful_calls total_calls : Z)
  : result Q :=
  if (0 <? total_calls)%Z then
    q <- div_int_int successful_calls total_calls ;;
    Ok (q * 100)
  else Ok 0.

(** calculate_agent_occupancy (lines 250-261) *)
Definition calculate_agent_occupancy (offered_load : Q) (num_agents : Z)
  : result Q :=
  if (0 <? num_agents)%Z then
    q <- div_float_int offered_load num_agents ;;
    Ok (q * 100)
  else Ok 0.



(** calculate_call_abandonment_rate (lines 290-300) *)
Definition calculate_call_abandonment_rate (abandoned_calls total_calls : Z)
  : result Q :=
  if (0 <? total_calls)%Z then
    q <- div_int_int abandoned_calls total_calls ;;
    Ok (q * 100)
  else Ok 0.

(** calculate_service_accessibility (lines 303-312) *)
Definition calculate_service_accessibility (blocking_probability : Q) : Q :=
  (1 - blocking_probability) * 100.

(** ** calculate_service_level (lines 106-116)

    [math.exp] is not a rational function: it is an argument of the model,
    a function that returns the float the library computes or raises
    [OverflowError]. *)

(** [a - x] for a finite [a] and a float [x]. *)
Definition pyfloat_rsub (a : Q) (x : pyfloat) : pyfloat :=
  match x with
  | Fin q => Fin (a - q)
  | PInf => NInf
  | NInf => PInf
  | NaN => NaN
  end.

Definition calculate_service_level (math_exp : Q -> result Q)
    (erlangs : Q) (channels : Z) (target_time : Q) : result pyfloat :=
  pw <- calculate_erlang_c erlangs channels ;;
  if Qltb erlangs (inject_Z channels) then
    c <- float_of_int channels ;;
    v <- math_exp (- (c - erlangs) * target_time) ;;
    Ok (pyfloat_mul (pyfloat_rsub 1 (pyfloat_mul pw v)) 100)
  else Ok (Fin 0).

(** ** The loops on binary64 floats

    The same two functions with Python's [float] as binary64 (primitive
    floats, round to nearest even): every operation rounds, and overflows to
    an infinity without raising.  Channel counts are converted with
    [of_uint63], exact for the counts below [2^53] used here. *)

(** Largest [int] up to which every [int] has its own double. *)
Definition MAX_EXACT_INT : Z := (2 ^ 53)%Z.

Definition float_of_small_int (z : Z) : float :=
  PrimFloat.of_uint63 (Uint63.of_Z z).

(** [a / b] on floats: [ZeroDivisionError] when [b] is [0.0] or [-0.0]. *)
Definition pydiv_f64 (a b : float) : result float :=
  if PrimFloat.eqb b 0%float then Raise ZeroDivisionError
  else Ok (a / b)%float.

Definition blocking_step_f64 (erlangs : float) (acc : result float) (k : Z)
  : result float :=
  b <- acc ;;
  t <- pydiv_f64 (float_of_small_int k * b)%float erlangs ;;
  Ok (1 + t)%float.

Definition calculate_blocking_probability_f64 (erlangs : float) (channels : Z)
  : result float :=
  if PrimFloat.ltb erlangs 0%float || (channels <? 1)%Z then Raise ValueError
  else
    b <- fold_left (blocking_step_f64 erlangs) (py_range 1 (channels + 1))
           (Ok 1%float) ;;
    pydiv_f64 1%float b.

Definition erlang_b_body_f64 (erlangs : float) (channel : Z)
    (previous_d previous_e : float) : result (float * float * float) :=
  r1 <- pydiv_f64 erlangs (float_of_small_int channel) ;;
  r2 <- pydiv_f64 erlangs (float_of_small_int channel) ;;
  block_percentage <-
    pydiv_f64 (r1 * previous_d)%float (previous_e + r2 * previous_d)%float ;;
  r3 <- pydiv_f64 erlangs (float_of_small_int channel) ;;
  let previous_e' := (previous_e + r3 * previous_d)%float in
  r4 <- pydiv_f64 erlangs (float_of_small_int channel) ;;
  let previous_d' := (r4 * previous_d)%float in
  Ok (block_percentage, previous_d', previous_e').

Fixpoint erlang_b_loop_f64 (fuel : nat) (erlangs block_level_goal : float)
    (channel : Z) (previous_d previous_e : float) : option (result Z) :=
  match fuel with
  | O => None
  | S fuel' =>
      match erlang_b_body_f64 erlangs channel previous_d previous_e with
      | Raise e => Some (Raise e)
      | Ok (block_percentage, previous_d', previous_e') =>
          if PrimFloat.ltb block_percentage block_level_goal
          then Some (Ok channel)
          else erlang_b_loop_f64 fuel' erlangs block_level_goal
                 (channel + 1) previous_d' previous_e'
      end
  end.

Definition calculate_erlang_b_f64 (fuel : nat) (erlangs block_level_goal : float)
  : option (result Z) :=
  if PrimFloat.ltb erlangs 0%float
     || PrimFloat.leb block_level_goal 0%float
     || PrimFloat.leb 1%float block_level_goal
  then Some (Raise ValueError)
  else erlang_b_loop_f64 fuel erlangs block_level_goal 1 1%float 1%float.

(** The double of the literal [0.01]. *)
Definition one_percent : float := 0x1.47ae147ae147bp-7%float.

(** * Proofs *)

(** ** Comparisons and division *)

Lemma Qltb_true (x y : Q) : Qltb x y = true <-> x < y.
Proof.
  unfold Qltb. rewrite negb_true_iff.
  split; intro H.
  - apply Qnot_le_lt. intro Hle. apply Qle_bool_iff in Hle. congruence.
  - destruct (Qle_bool y x) eqn:E; [|reflexivity].
    apply Qle_bool_iff in E. exfalso. exact (Qlt_not_le _ _ H E).
Qed.

Lemma Qltb_false (x y : Q) : Qltb x y = false <-> y <= x.
Proof.
  unfold Qltb. rewrite negb_false_iff. apply Qle_bool_iff.
Qed.

Lemma Qle_bool_false (x y : Q) : Qle_bool x y = false <-> y < x.
Proof.
  rewrite <- Qltb_true. unfold Qltb. rewrite negb_true_iff. reflexivity.
Qed.

Lemma Qeq_bool_false (x y : Q) : ~ x == y -> Qeq_bool x y = false.
Proof.
  intro H. destruct (Qeq_bool x y) eqn:E; [|reflexivity].
  apply Qeq_bool_iff in E. contradiction.
Qed.

Lemma pydiv_ok (a b : Q) : ~ b == 0 -> pydiv a b = Ok (a / b).
Proof.
  intro H. unfold pydiv. now rewrite (Qeq_bool_false _ _ H).
Qed.

Lemma pydiv_zero (a b : Q) : b == 0 -> pydiv a b = Raise ZeroDivisionError.
Proof.
  intro H. unfold pydiv. apply Qeq_bool_iff in H. now rewrite H.
Qed.

Lemma inject_Z_pos (z : Z) : (0 < z)%Z -> 0 < inject_Z z.
Proof.
  intro H. unfold Qlt. simpl. lia.
Qed.

Lemma inject_nat_pos (n : nat) : 0 < inject_Z (Z.of_nat (S n)).
Proof. apply inject_Z_pos. lia. Qed.

(** ** Ranges *)

Lemma py_range_snoc (lo : Z) (n : nat) :
  py_range lo (lo + Z.of_nat (S n))
  = py_range lo (lo + Z.of_nat n) ++ [(lo + Z.of_nat n)%Z].
Proof.
  unfold py_range.
  replace (lo + Z.of_nat (S n) - lo)%Z with (Z.of_nat (S n)) by lia.
  replace (lo + Z.of_nat n - lo)%Z with (Z.of_nat n) by lia.
  rewrite !Nat2Z.id, seq_S, map_app. reflexivity.
Qed.

Lemma py_range_nil (lo : Z) : py_range lo lo = [].
Proof. unfold py_range. now rewrite Z.sub_diag. Qed.

Lemma py_range_cons (lo hi : Z) :
  (lo < hi)%Z -> py_range lo hi = lo :: py_range (lo + 1) hi.
Proof.
  intro H. unfold py_range.
  replace (Z.to_nat (hi - lo)) with (S (Z.to_nat (hi - (lo + 1)))) by lia.
  simpl. f_equal; [lia|].
  rewrite <- seq_shift, map_map. apply map_ext. intro i. lia.
Qed.

Lemma fold_left_raise {A B : Type} (f : result A -> B -> result A)
    (l : list B) (e : exn) :
  (forall k, f (Raise e) k = Raise e) -> fold_left f l (Raise e) = Raise e.
Proof.
  intro H. induction l as [|k l IH]; simpl; [reflexivity|]. now rewrite H.
Qed.

(** ** The loop of calculate_blocking_probability *)

Lemma blocking_iter_S (erlangs : Q) (n : nat) :
  blocking_iter erlangs (S n)
  = 1 + inject_Z (Z.of_nat (S n)) * blocking_iter erlangs n / erlangs.
Proof. reflexivity. Qed.

Lemma erlangB_spec_S (load : Q) (n : nat) :
  erlangB_spec load (S n)
  = (load * erlangB_spec load n)
    / (inject_Z (Z.of_nat (S n)) + load * erlangB_spec load n).
Proof. reflexivity. Qed.

Lemma inject_nat_S (n : nat) :
  inject_Z (Z.of_nat (S (S n))) == inject_Z (Z.of_nat (S n)) + 1.
Proof.
  rewrite (Nat2Z.inj_succ (S n)). unfold Z.succ. now rewrite inject_Z_plus.
Qed.

Section BlockingLoop.

Variable erlangs : Q.
Hypothesis erlangs_pos : 0 < erlangs.

Lemma erlangs_nonzero : ~ erlangs == 0.
Proof. intro H. rewrite H in erlangs_pos. discriminate. Qed.

Lemma blocking_iter_ge1 (n : nat) : 1 <= blocking_iter erlangs n.
Proof.
  induction n as [|n IH]; [apply Qle_refl|].
  rewrite blocking_iter_S.
  pose proof (inject_nat_pos n) as Hk.
  assert (0 <= inject_Z (Z.of_nat (S n)) * blocking_iter erlangs n / erlangs).
  { apply Qle_shift_div_l; [exact erlangs_pos|]. nra. }
  lra.
Qed.

Lemma blocking_iter_pos (n : nat) : 0 < blocking_iter erlangs n.
Proof. pose proof (blocking_iter_ge1 n). lra. Qed.

Lemma blocking_iter_incr (n : nat) :
  blocking_iter erlangs n < blocking_iter erlangs (S n).
Proof.
  induction n as [|n IH].
  - rewrite blocking_iter_S. simpl blocking_iter.
    assert (0 < inject_Z (Z.of_nat 1) * 1 / erlangs).
    { apply Qlt_shift_div_l; [exact erlangs_pos|]. reflexivity. }
    lra.
  - rewrite (blocking_iter_S _ (S n)).
    pose proof (blocking_iter_pos n) as Hb0.
    pose proof (blocking_iter_pos (S n)) as Hb1.
    remember (blocking_iter erlangs (S n)) as b1 eqn:Hb1e.
    rewrite Hb1e at 1. rewrite blocking_iter_S.
    remember (blocking_iter erlangs n) as b0.
    pose proof (inject_nat_pos n) as Hk.
    rewrite inject_nat_S.
    remember (inject_Z (Z.of_nat (S n))) as k.
    apply Qplus_lt_r.
    apply Qlt_shift_div_l; [exact erlangs_pos|].
    setoid_replace (k * b0 / erlangs * erlangs) with (k * b0)
      by (field; exact erlangs_nonzero).
    nra.
Qed.

Lemma blocking_loop_ok (n : nat) :
  fold_left (blocking_step erlangs) (py_range 1 (1 + Z.of_nat n)) (Ok 1)
  = Ok (blocking_iter erlangs n).
Proof.
  induction n as [|n IH].
  - now rewrite Z.add_0_r, py_range_nil.
  - rewrite py_range_snoc, fold_left_app, IH.
    replace (1 + Z.of_nat n)%Z with (Z.of_nat (S n)) by lia.
    cbn [fold_left]. unfold blocking_step, bind.
    now rewrite (pydiv_ok _ _ erlangs_nonzero), blocking_iter_S.
Qed.

Lemma blocking_probability_ok (channels : Z) :
  (1 <= channels)%Z ->
  calculate_blocking_probability erlangs channels
  = Ok (1 / blocking_iter erlangs (Z.to_nat channels)).
Proof.
  intro Hc. unfold calculate_blocking_probability.
  replace (Qltb erlangs 0) with false
    by (symmetry; apply Qltb_false; lra).
  replace (channels <? 1)%Z with false by (symmetry; apply Z.ltb_ge; lia).
  simpl orb. cbv iota.
  replace (channels + 1)%Z with (1 + Z.of_nat (Z.to_nat channels))%Z by lia.
  rewrite blocking_loop_ok. unfold bind.
  apply pydiv_ok. pose proof (blocking_iter_pos (Z.to_nat channels)). lra.
Qed.

(** The loop computes the reciprocal of the recurrence of the
    specification. *)
Lemma erlangB_spec_blocking_iter (n : nat) :
  erlangB_spec erlangs n == 1 / blocking_iter erlangs n.
Proof.
  induction n as [|n IH].
  - simpl. reflexivity.
  - rewrite erlangB_spec_S, IH, blocking_iter_S.
    pose proof (blocking_iter_pos n) as Hb.
    pose proof (inject_nat_pos n) as Hk.
    remember (blocking_iter erlangs n) as b.
    remember (inject_Z (Z.of_nat (S n))) as k.
    assert (Hd : ~ k * b + erlangs == 0) by nra.
    assert (Hd' : ~ erlangs + k * b == 0) by nra.
    field. repeat split; try lra; try exact erlangs_nonzero; assumption.
Qed.

End BlockingLoop.

(** ** The loop of calculate_erlang_b *)

Lemma running_d_S (erlangs : Q) (n : nat) :
  running_d erlangs (S n)
  = erlangs / inject_Z (Z.of_nat (S n)) * running_d erlangs n.
Proof. reflexivity. Qed.

Lemma running_e_S (erlangs : Q) (n : nat) :
  running_e erlangs (S n)
  = running_e erlangs n
    + erlangs / inject_Z (Z.of_nat (S n)) * running_d erlangs n.
Proof. reflexivity. Qed.

Section DimensioningLoop.

Variable erlangs : Q.
Hypothesis erlangs_nonneg : 0 <= erlangs.

Lemma ratio_nonneg (n : nat) : 0 <= erlangs / inject_Z (Z.of_nat (S n)).
Proof.
  apply Qle_shift_div_l; [apply inject_nat_pos|]. lra.
Qed.

Lemma running_d_nonneg (n : nat) : 0 <= running_d erlangs n.
Proof.
  induction n as [|n IH]; [discriminate|].
  rewrite running_d_S. pose proof (ratio_nonneg n). nra.
Qed.

Lemma running_e_ge1 (n : nat) : 1 <= running_e erlangs n.
Proof.
  induction n as [|n IH]; [apply Qle_refl|].
  rewrite running_e_S.
  pose proof (ratio_nonneg n). pose proof (running_d_nonneg n). nra.
Qed.

Lemma running_e_pos (n : nat) : 0 < running_e erlangs n.
Proof. pose proof (running_e_ge1 n). lra. Qed.

Lemma running_d_le_e (n : nat) : running_d erlangs n <= running_e erlangs n.
Proof.
  destruct n as [|n]; [apply Qle_refl|].
  rewrite running_e_S, running_d_S. pose proof (running_e_ge1 n). lra.
Qed.

Lemma running_e_mono (n : nat) : running_e erlangs n <= running_e erlangs (S n).
Proof.
  rewrite running_e_S.
  pose proof (ratio_nonneg n). pose proof (running_d_nonneg n). nra.
Qed.

Lemma running_block_nonneg (n : nat) : 0 <= running_block erlangs n.
Proof.
  unfold running_block.
  apply Qle_shift_div_l; [apply running_e_pos|].
  pose proof (running_d_nonneg n). lra.
Qed.

Lemma running_block_le1 (n : nat) : running_block erlangs n <= 1.
Proof.
  unfold running_block.
  apply Qle_shift_div_r; [apply running_e_pos|].
  pose proof (running_d_le_e n). lra.
Qed.

(** What the loop evaluates is the recurrence of the specification. *)
Lemma erlangB_spec_running (n : nat) :
  erlangB_spec erlangs n == running_block erlangs n.
Proof.
  unfold running_block. induction n as [|n IH].
  - simpl. reflexivity.
  - rewrite erlangB_spec_S, IH, running_d_S, running_e_S.
    pose proof (running_e_pos n) as He.
    pose proof (running_d_nonneg n) as Hd.
    pose proof (inject_nat_pos n) as Hk.
    remember (running_e erlangs n) as e.
    remember (running_d erlangs n) as d.
    remember (inject_Z (Z.of_nat (S n))) as k.
    assert (H1 : ~ e * k + erlangs * d == 0) by nra.
    assert (H2 : ~ k * e + erlangs * d == 0) by nra.
    field. repeat split; try lra; assumption.
Qed.

(** Blocking at [n >= 1] channels is at most [erlangs / n]. *)
Lemma running_block_decay (n : nat) :
  running_block erlangs (S n) <= erlangs / inject_Z (Z.of_nat (S n)).
Proof.
  unfold running_block.
  apply Qle_shift_div_r; [apply running_e_pos|].
  rewrite running_d_S.
  pose proof (ratio_nonneg n) as Hr.
  pose proof (running_d_le_e n) as Hde.
  pose proof (running_e_mono n) as Hee.
  pose proof (running_d_nonneg n) as Hd.
  remember (erlangs / inject_Z (Z.of_nat (S n))) as r.
  remember (running_e erlangs (S n)) as e1.
  nra.
Qed.

Lemma erlang_b_body_ok (n : nat) :
  erlang_b_body erlangs (Z.of_nat (S n))
    (running_d erlangs n) (running_e erlangs n)
  = Ok (running_block erlangs (S n),
        running_d erlangs (S n), running_e erlangs (S n)).
Proof.
  unfold erlang_b_body.
  assert (Hk : ~ inject_Z (Z.of_nat (S n)) == 0).
  { pose proof (inject_nat_pos n). lra. }
  rewrite (pydiv_ok _ _ Hk). unfold bind.
  rewrite pydiv_ok; [reflexivity|].
  rewrite <- running_e_S. pose proof (running_e_pos (S n)). lra.
Qed.

End DimensioningLoop.

Section DimensioningSearch.

Variables erlangs block_level_goal : Q.
Hypothesis erlangs_nonneg : 0 <= erlangs.
Hypothesis goal_pos : 0 < block_level_goal.

(** Started at channel [m + 1] on the values of pass [m], the loop stops
    at the first channel whose blocking is below the goal, provided there
    is one within the next [n] channels. *)
Lemma erlang_b_loop_finds (n : nat) : forall m : nat,
  running_block erlangs (S (m + n)) < block_level_goal ->
  exists j : nat,
    (m <= j <= m + n)%nat /\
    (forall fuel, (n < fuel)%nat ->
       erlang_b_loop fuel erlangs block_level_goal (Z.of_nat (S m))
         (running_d erlangs m) (running_e erlangs m)
       = Some (Ok (Z.of_nat (S j)))) /\
    running_block erlangs (S j) < block_level_goal /\
    (forall i, (m <= i < j)%nat ->
       block_level_goal <= running_block erlangs (S i)).
Proof.
  induction n as [|n IH]; intros m Hlt.
  - rewrite Nat.add_0_r in Hlt. exists m.
    repeat split; try lia; [|exact Hlt].
    intros [|fuel] Hf; [lia|]. cbn [erlang_b_loop].
    rewrite (erlang_b_body_ok erlangs erlangs_nonneg).
    apply Qltb_true in Hlt. now rewrite Hlt.
  - destruct (Qltb (running_block erlangs (S m)) block_level_goal) eqn:Hm.
    + exists m. repeat split; try lia.
      * intros [|fuel] Hf; [lia|]. cbn [erlang_b_loop].
        rewrite (erlang_b_body_ok erlangs erlangs_nonneg). now rewrite Hm.
      * now apply Qltb_true.
    + replace (m + S n)%nat with (S m + n)%nat in Hlt by lia.
      destruct (IH (S m) Hlt) as (j & Hj & Hrun & Hbelow & Hmin).
      exists j. repeat split; try lia; [|exact Hbelow|].
      * intros [|fuel] Hf; [lia|]. cbn [erlang_b_loop].
        rewrite (erlang_b_body_ok erlangs erlangs_nonneg), Hm.
        replace (Z.of_nat (S m) + 1)%Z with (Z.of_nat (S (S m))) by lia.
        apply Hrun. lia.
      * intros i Hi. destruct (Nat.eq_dec i m) as [->|Hne].
        -- now apply Qltb_false.
        -- apply Hmin. lia.
Qed.

(** Blocking is below the goal once the channel count exceeds
    [erlangs / block_level_goal]. *)
Lemma running_block_below_goal :
  running_block erlangs (fuel_bound erlangs block_level_goal)
  < block_level_goal.
Proof.
  unfold fuel_bound.
  set (n := Z.to_nat (Qfloor (erlangs / block_level_goal))).
  eapply Qle_lt_trans; [apply (running_block_decay erlangs erlangs_nonneg)|].
  apply Qlt_shift_div_r; [apply inject_nat_pos|].
  assert (Hq : 0 <= erlangs / block_level_goal).
  { apply Qle_shift_div_l; [exact goal_pos|]. lra. }
  assert (Hf : (0 <= Qfloor (erlangs / block_level_goal))%Z).
  { change 0%Z with (Qfloor 0). now apply Qfloor_resp_le. }
  replace (Z.of_nat (S n))
    with (Qfloor (erlangs / block_level_goal) + 1)%Z by (unfold n; lia).
  pose proof (Qlt_floor (erlangs / block_level_goal)) as Hlt.
  apply (Qmult_lt_compat_r _ _ block_level_goal goal_pos) in Hlt.
  setoid_replace (erlangs / block_level_goal * block_level_goal)
    with erlangs in Hlt by (field; lra).
  lra.
Qed.

(** The search: it stops, and at the least channel count whose blocking
    is below the goal. *)
Lemma erlang_b_loop_least :
  exists j : nat,
    (S j <= fuel_bound erlangs block_level_goal)%nat /\
    (forall fuel, (fuel_bound erlangs block_level_goal <= fuel)%nat ->
       erlang_b_loop fuel erlangs block_level_goal 1 1 1
       = Some (Ok (Z.of_nat (S j)))) /\
    running_block erlangs (S j) < block_level_goal /\
    (forall i, (i < j)%nat ->
       block_level_goal <= running_block erlangs (S i)).
Proof.
  pose proof running_block_below_goal as Hb.
  unfold fuel_bound in *.
  set (n := Z.to_nat (Qfloor (erlangs / block_level_goal))) in *.
  destruct (erlang_b_loop_finds n 0 Hb) as (j & Hj & Hrun & Hbelow & Hmin).
  exists j. repeat split; try lia; [|exact Hbelow|].
  - intros fuel Hf. apply (Hrun fuel). lia.
  - intros i Hi. apply Hmin. lia.
Qed.

End DimensioningSearch.

(** ** The Poisson terms of calculate_erlang_c *)

Lemma fact_upto_pos (n : nat) : (0 < fact_upto n)%Z.
Proof. induction n as [|n IH]; cbn [fact_upto]; lia. Qed.

Lemma fact_upto_mono (n m : nat) : (n <= m)%nat -> (fact_upto n <= fact_upto m)%Z.
Proof.
  induction 1 as [|m _ IH]; [lia|].
  cbn [fact_upto]. pose proof (fact_upto_pos m). nia.
Qed.

Lemma overflows_inject_Z (n : Z) :
  (DBL_OVERFLOW <= n)%Z -> overflows (inject_Z n) = true.
Proof.
  intro H. unfold overflows. apply Qle_bool_iff.
  assert (H0 : (0 < DBL_OVERFLOW)%Z) by (now vm_compute).
  unfold Qabs, inject_Z. rewrite Z.abs_eq by lia.
  change (inject_Z DBL_OVERFLOW <= inject_Z n). now rewrite <- Zle_Qle.
Qed.

Lemma float_of_int_cases (n : Z) :
  float_of_int n = Raise OverflowError \/ float_of_int n = Ok (inject_Z n).
Proof. unfold float_of_int. destruct (overflows _); auto. Qed.

Lemma math_pow_cases (x : Q) (y : Z) :
  (0 <= y)%Z ->
  math_pow x y = Raise OverflowError \/ math_pow x y = Ok (Qpower x y).
Proof.
  intro Hy. unfold math_pow.
  destruct (float_of_int_cases y) as [-> | ->]; [now left|].
  unfold bind. replace (y <? 0)%Z with false by (symmetry; apply Z.ltb_ge; lia).
  rewrite andb_false_r. destruct (overflows _); auto.
Qed.

Lemma math_factorial_ok (n : Z) :
  (0 <= n)%Z -> math_factorial n = Ok (fact_upto (Z.to_nat n)).
Proof.
  intro H. unfold math_factorial.
  now replace (n <? 0)%Z with false by (symmetry; apply Z.ltb_ge; lia).
Qed.

Lemma div_float_int_cases (a : Q) (n : Z) :
  (0 < n)%Z ->
  div_float_int a n = Raise OverflowError
  \/ div_float_int a n = Ok (a / inject_Z n).
Proof.
  intro Hn. unfold div_float_int.
  destruct (float_of_int_cases n) as [-> | ->]; [now left|].
  right. unfold bind. apply pydiv_ok.
  pose proof (inject_Z_pos n Hn). lra.
Qed.

Lemma poisson_term_cases (erlangs : Q) (k : nat) :
  poisson_term erlangs (Z.of_nat k) = Raise OverflowError
  \/ poisson_term erlangs (Z.of_nat k) = Ok (term erlangs k).
Proof.
  unfold poisson_term.
  destruct (math_pow_cases erlangs (Z.of_nat k)) as [-> | ->];
    [lia | now left |].
  unfold bind. rewrite math_factorial_ok, Nat2Z.id by lia.
  apply div_float_int_cases, fact_upto_pos.
Qed.

Lemma poisson_sum_cases (erlangs : Q) (n : nat) :
  let step := fun acc k =>
    s <- acc ;; t <- poisson_term erlangs k ;; Ok (s + t) in
  fold_left step (py_range 0 (0 + Z.of_nat n)) (Ok 0) = Raise OverflowError
  \/ fold_left step (py_range 0 (0 + Z.of_nat n)) (Ok 0)
     = Ok (partial_sum erlangs n).
Proof.
  intro step. induction n as [|n IH].
  - right. now rewrite Z.add_0_r, py_range_nil.
  - rewrite py_range_snoc, fold_left_app. cbn [fold_left].
    destruct IH as [-> | ->]; [now left|].
    unfold step, bind. rewrite Z.add_0_l.
    destruct (poisson_term_cases erlangs n) as [-> | ->]; [now left|].
    now right.
Qed.

Lemma term_S (erlangs : Q) (k : nat) :
  term erlangs (S k)
  == erlangs / inject_Z (Z.of_nat (S k)) * term erlangs k.
Proof.
  unfold term. cbn [fact_upto].
  rewrite inject_Z_mult.
  replace (Z.of_nat (S k)) with (Z.of_nat k + 1)%Z at 1 by lia.
  rewrite Qpower_plus' by lia. rewrite Qpower_1_r.
  pose proof (inject_nat_pos k) as Hk.
  pose proof (inject_Z_pos _ (fact_upto_pos k)) as Hf.
  field. split; lra.
Qed.

Lemma term_running_d (erlangs : Q) (k : nat) :
  term erlangs k == running_d erlangs k.
Proof.
  induction k as [|k IH].
  - unfold term. simpl. reflexivity.
  - now rewrite term_S, running_d_S, IH.
Qed.

Lemma partial_sum_running_e (erlangs : Q) (n : nat) :
  partial_sum erlangs (S n) == running_e erlangs n.
Proof.
  induction n as [|n IH].
  - unfold partial_sum, term. simpl. reflexivity.
  - change (partial_sum erlangs (S (S n)))
      with (partial_sum erlangs (S n) + term erlangs (S n)).
    now rewrite IH, running_e_S, term_running_d, running_d_S.
Qed.

Lemma channel_times_running_d (erlangs : Q) (n : nat) :
  inject_Z (Z.of_nat (S n)) * running_d erlangs (S n)
  == erlangs * running_d erlangs n.
Proof.
  rewrite running_d_S. pose proof (inject_nat_pos n). field. lra.
Qed.

(** ** calculate_erlang_c below saturation *)

Section ErlangC.

Variable erlangs : Q.
Variable n : nat.
Let channels : Z := Z.of_nat (S n).
Hypothesis erlangs_nonneg : 0 <= erlangs.
Hypothesis below_capacity : erlangs < inject_Z channels.

Lemma capacity_gap_nonzero : ~ inject_Z channels - erlangs == 0.
Proof. lra. Qed.

Lemma erlang_c_try_body_cases :
  erlang_c_try_body erlangs channels = Raise OverflowError
  \/ erlang_c_try_body erlangs channels
     = Ok (erlang_c_numerator erlangs (S n),
           erlang_c_denominator erlangs (S n)).
Proof.
  unfold erlang_c_try_body.
  destruct (math_pow_cases erlangs channels) as [-> | ->];
    [unfold channels; lia | now left |].
  rewrite math_factorial_ok by (unfold channels; lia). cbn [bind].
  replace (Z.to_nat channels) with (S n) by (unfold channels; lia).
  destruct (div_float_int_cases (Qpower erlangs channels) (fact_upto (S n))
              (fact_upto_pos (S n))) as [-> | ->]; [now left|].
  destruct (float_of_int_cases channels) as [-> | ->]; [now left|].
  cbn [bind]. rewrite (pydiv_ok _ _ capacity_gap_nonzero). cbn [bind].
  unfold poisson_sum.
  replace (channels + 1)%Z with (0 + Z.of_nat (S (S n)))%Z
    by (unfold channels; lia).
  destruct (poisson_sum_cases erlangs (S (S n))) as [-> | ->]; [now left|].
  right. reflexivity.
Qed.

Lemma erlang_c_numerator_nonneg : 0 <= erlang_c_numerator erlangs (S n).
Proof.
  unfold erlang_c_numerator. fold channels.
  pose proof (running_d_nonneg erlangs erlangs_nonneg (S n)) as Hd.
  rewrite <- term_running_d in Hd.
  assert (0 <= inject_Z channels / (inject_Z channels - erlangs)).
  { apply Qle_shift_div_l; lra. }
  nra.
Qed.

Lemma erlang_c_denominator_pos : 0 < erlang_c_denominator erlangs (S n).
Proof.
  unfold erlang_c_denominator. rewrite partial_sum_running_e.
  pose proof (running_e_pos erlangs erlangs_nonneg (S n)).
  pose proof erlang_c_numerator_nonneg. lra.
Qed.

Lemma erlang_c_cases :
  calculate_erlang_c erlangs channels = Ok PInf
  \/ calculate_erlang_c erlangs channels
     = Ok (Fin (erlang_c_numerator erlangs (S n)
                / erlang_c_denominator erlangs (S n))).
Proof.
  unfold calculate_erlang_c.
  replace (Qle_bool (inject_Z channels) erlangs) with false
    by (symmetry; now apply Qle_bool_false).
  destruct erlang_c_try_body_cases as [-> | ->]; [now left|].
  right. rewrite pydiv_ok; [reflexivity|].
  pose proof erlang_c_denominator_pos. lra.
Qed.

(** The quotient computed below saturation is at least the blocking
    [running_block] at the same channel count. *)
Lemma erlang_c_quotient_ge_block :
  running_block erlangs (S n)
  <= erlang_c_numerator erlangs (S n) / erlang_c_denominator erlangs (S n).
Proof.
  pose proof erlang_c_denominator_pos as HD.
  apply Qle_shift_div_l; [exact HD|].
  pose proof (running_e_pos erlangs erlangs_nonneg (S n)) as He.
  assert (HB : running_block erlangs (S n) * running_e erlangs (S n)
               == running_d erlangs (S n)).
  { unfold running_block. field. lra. }
  unfold erlang_c_denominator, erlang_c_numerator in HD |- *.
  fold channels in HD |- *.
  rewrite partial_sum_running_e, term_running_d in HD |- *.
  pose proof (channel_times_running_d erlangs n) as Hcd. fold channels in Hcd.
  pose proof (running_d_nonneg erlangs erlangs_nonneg (S n)) as Hd.
  pose proof (running_d_le_e erlangs erlangs_nonneg n) as Hde.
  pose proof (running_e_mono erlangs erlangs_nonneg n) as Hee.
  pose proof (running_d_nonneg erlangs erlangs_nonneg n) as Hd0.
  remember (running_block erlangs (S n)) as B.
  remember (running_d erlangs (S n)) as d1.
  remember (running_e erlangs (S n)) as e1.
  remember (running_d erlangs n) as d0.
  remember (running_e erlangs n) as e0.
  remember (inject_Z channels) as c.
  assert (Hgap : 0 < c - erlangs) by lra.
  assert (Hr : c / (c - erlangs) * (c - erlangs) == c) by (field; lra).
  remember (c / (c - erlangs)) as r.
  (* e1 <= r * (e1 - d1), from c * d1 = erlangs * d0 <= erlangs * e1 *)
  assert (Hkey : e1 * (c - erlangs) <= r * (c - erlangs) * (e1 - d1)).
  { rewrite Hr. nra. }
  assert (Hkey' : e1 <= r * (e1 - d1)) by nra.
  assert (Hkey'' : e1 * (1 + r * B) <= e1 * r).
  { setoid_replace (e1 * (1 + r * B)) with (e1 + r * (B * e1)) by ring.
    rewrite HB. lra. }
  assert (Hfin : 1 + r * B <= r) by nra.
  setoid_replace (B * (e1 + d1 * r)) with (d1 + d1 * (r * B))
    by (rewrite <- HB; ring).
  nra.
Qed.

End ErlangC.

(** ** Fuel *)

Lemma erlang_b_loop_fuel_mono (erlangs goal : Q) (fuel : nat) :
  forall (fuel' : nat) (channel : Z) (d e : Q) (r : result Z),
  (fuel <= fuel')%nat ->
  erlang_b_loop fuel erlangs goal channel d e = Some r ->
  erlang_b_loop fuel' erlangs goal channel d e = Some r.
Proof.
  induction fuel as [|fuel IH]; intros fuel' channel d e r Hle Hrun.
  - discriminate.
  - destruct fuel' as [|fuel']; [lia|].
    cbn [erlang_b_loop] in *.
    destruct (erlang_b_body erlangs channel d e) as [[[bp d'] e']|ex];
      [|exact Hrun].
    destruct (Qltb bp goal); [exact Hrun|].
    apply IH; [lia | exact Hrun].
Qed.

Lemma calculate_erlang_b_valid (fuel : nat) (erlangs goal : Q) :
  0 <= erlangs -> 0 < goal -> goal < 1 ->
  calculate_erlang_b fuel erlangs goal
  = erlang_b_loop fuel erlangs goal 1 1 1.
Proof.
  intros H0 H1 H2. unfold calculate_erlang_b.
  replace (Qltb erlangs 0) with false by (symmetry; now apply Qltb_false).
  replace (Qle_bool goal 0) with false by (symmetry; now apply Qle_bool_false).
  replace (Qle_bool 1 goal) with false by (symmetry; now apply Qle_bool_false).
  reflexivity.
Qed.

(** * Properties of the entry points *)

(** ** calculate_erlang *)

Lemma calculate_erlang_ok (arrival_rate mean_hold_time average_call_time : Q) :
  0 <= arrival_rate -> 0 <= mean_hold_time -> 0 <= average_call_time ->
  calculate_erlang arrival_rate mean_hold_time average_call_time
  = Ok (py_round
          (arrival_rate * ((mean_hold_time + average_call_time) / 60) / 60) 4).
Proof.
  intros Ha Hh Ht. unfold calculate_erlang.
  replace (Qltb arrival_rate 0) with false by (symmetry; now apply Qltb_false).
  replace (Qltb mean_hold_time 0) with false
    by (symmetry; now apply Qltb_false).
  replace (Qltb average_call_time 0) with false
    by (symmetry; now apply Qltb_false).
  reflexivity.
Qed.

(** C2 (as the code has it): [calculate_erlang(100, 0, 180)] returns
    [round(100 * ((0 + 180) / 60) / 60, 4)], which is 5 Erlangs. *)
Theorem offered_load_scenario_is_5 :
  calculate_erlang 100 0 180
  = Ok (py_round (100 * ((0 + 180) / 60) / 60) 4)
  /\ py_round (100 * ((0 + 180) / 60) / 60) 4 == 5.
Proof.
  split.
  - apply calculate_erlang_ok; discriminate.
  - reflexivity.
Qed.

(** C2 as stated fails: the value returned for (100, 0, 180) is 5, which is
    not within 0.001 of 0.0833. *)
Lemma offered_load_scenario_not_0_0833 :
  exists r : Q,
    calculate_erlang 100 0 180 = Ok r
    /\ r == 5
    /\ ~ Qabs (r - (833 # 10000)) <= 1 # 1000.
Proof.
  eexists. split; [reflexivity|]. split; [reflexivity|].
  intro H. vm_compute in H. apply H. reflexivity.
Qed.

(** ** calculate_blocking_probability *)

(** A zero load passes the guard and the first pass of the loop divides by
    it. *)
Lemma blocking_probability_divides_by_zero (erlangs : Q) (channels : Z) :
  erlangs == 0 -> (1 <= channels)%Z ->
  calculate_blocking_probability erlangs channels = Raise ZeroDivisionError.
Proof.
  intros He Hc. unfold calculate_blocking_probability.
  replace (Qltb erlangs 0) with false
    by (symmetry; apply Qltb_false; rewrite He; apply Qle_refl).
  replace (channels <? 1)%Z with false by (symmetry; apply Z.ltb_ge; lia).
  cbn [orb].
  rewrite py_range_cons by lia. cbn [fold_left].
  unfold blocking_step at 2. cbn [bind].
  rewrite (pydiv_zero _ _ He). cbn [bind].
  rewrite fold_left_raise; reflexivity.
Qed.

(** C3: with [erlangs = 0] accepted by the guard, the first pass of the loop
    divides by zero: for every [channels >= 1] the call raises
    [ZeroDivisionError] instead of returning 0. *)
Theorem blocking_probability_zero_load_raises (channels : Z) :
  (1 <= channels)%Z ->
  calculate_blocking_probability 0 channels = Raise ZeroDivisionError.
Proof.
  intro Hc. now apply blocking_probability_divides_by_zero.
Qed.

Lemma blocking_probability_zero_load_raises_witness :
  (1 <= 1)%Z /\ calculate_blocking_probability 0 1 = Raise ZeroDivisionError.
Proof.
  split; [lia | apply (blocking_probability_zero_load_raises 1); lia].
Defined.

(** C5: for [load > 0] and [channels >= 1] the value returned by
    [calculate_blocking_probability] equals the recurrence of the
    specification at [k = channels]. *)
Theorem blocking_probability_refines_spec (load : Q) (channels : Z) :
  0 < load -> (1 <= channels)%Z ->
  exists b : Q,
    calculate_blocking_probability load channels = Ok b
    /\ b == erlangB_spec load (Z.to_nat channels).
Proof.
  intros Hl Hc. eexists. split.
  - now apply blocking_probability_ok.
  - symmetry. now apply erlangB_spec_blocking_iter.
Qed.

Lemma blocking_probability_refines_spec_witness :
  0 < 10 /\ (1 <= 15)%Z /\
  exists b : Q,
    calculate_blocking_probability 10 15 = Ok b
    /\ b == erlangB_spec 10 (Z.to_nat 15).
Proof.
  split; [reflexivity|]. split; [lia|].
  apply (blocking_probability_refines_spec 10 15); [reflexivity | lia].
Defined.

(** C7 (under exact arithmetic): for [load > 0] and [c >= 1], the blocking
    probability at [c + 1] channels is strictly below the one at [c]
    channels. *)
Theorem blocking_probability_strictly_decreasing (load : Q) (c : Z) :
  0 < load -> (1 <= c)%Z ->
  exists b1 b2 : Q,
    calculate_blocking_probability load c = Ok b1
    /\ calculate_blocking_probability load (c + 1) = Ok b2
    /\ b2 < b1.
Proof.
  intros Hl Hc. do 2 eexists. split; [|split].
  - now apply blocking_probability_ok.
  - apply blocking_probability_ok; [exact Hl | lia].
  - replace (Z.to_nat (c + 1)) with (S (Z.to_nat c)) by lia.
    pose proof (blocking_iter_incr load Hl (Z.to_nat c)) as Hi.
    pose proof (blocking_iter_pos load Hl (Z.to_nat c)) as Hp.
    remember (blocking_iter load (Z.to_nat c)) as x.
    remember (blocking_iter load (S (Z.to_nat c))) as y.
    apply Qlt_shift_div_r; [lra|].
    setoid_replace (1 / x * y) with (y / x) by (field; lra).
    apply Qlt_shift_div_l; lra.
Qed.

Lemma blocking_probability_strictly_decreasing_witness :
  0 < 10 /\ (1 <= 15)%Z /\
  exists b1 b2 : Q,
    calculate_blocking_probability 10 15 = Ok b1
    /\ calculate_blocking_probability 10 (15 + 1) = Ok b2
    /\ b2 < b1.
Proof.
  split; [reflexivity|]. split; [lia|].
  apply (blocking_probability_strictly_decreasing 10 15); [reflexivity | lia].
Defined.

(** For a positive load the value returned lies in [0, 1]. *)
Lemma blocking_probability_in_unit_interval (load : Q) (channels : Z) :
  0 < load -> (1 <= channels)%Z ->
  exists b : Q,
    calculate_blocking_probability load channels = Ok b /\ 0 <= b <= 1.
Proof.
  intros Hl Hc. eexists. split; [now apply blocking_probability_ok|].
  pose proof (blocking_iter_ge1 load Hl (Z.to_nat channels)) as Hb.
  remember (blocking_iter load (Z.to_nat channels)) as x.
  split.
  - apply Qle_shift_div_l; lra.
  - apply Qle_shift_div_r; lra.
Qed.

(** C8: at [load = 0], which the guard accepts, the call raises whatever the
    channel count: no value, in [0, 1] or otherwise, is returned. *)
Theorem blocking_probability_zero_load_no_value (channels : Z) :
  exists e : exn, calculate_blocking_probability 0 channels = Raise e.
Proof.
  destruct (Z.ltb_spec channels 1) as [Hlt | Hge].
  - exists ValueError. unfold calculate_blocking_probability.
    replace (channels <? 1)%Z with true by (symmetry; apply Z.ltb_lt; lia).
    now rewrite orb_true_r.
  - exists ZeroDivisionError.
    now apply blocking_probability_divides_by_zero.
Qed.

(** ** calculate_erlang_b *)

(** Under exact arithmetic: for [load >= 0] and a goal in (0,1) the search
    stops (any fuel from [fuel_bound load goal] on is enough, and no fuel
    gives another answer) and returns the least channel count [c >= 1]
    whose Erlang B blocking probability is below the goal: at every smaller
    count it is at least the goal. *)
Theorem calculate_erlang_b_least_channels (load goal : Q) :
  0 <= load -> 0 < goal -> goal < 1 ->
  exists c : Z,
    (1 <= c)%Z
    /\ (forall fuel, (fuel_bound load goal <= fuel)%nat ->
          calculate_erlang_b fuel load goal = Some (Ok c))
    /\ (forall fuel r, calculate_erlang_b fuel load goal = Some r -> r = Ok c)
    /\ erlangB_spec load (Z.to_nat c) < goal
    /\ (forall c', (1 <= c' < c)%Z -> goal <= erlangB_spec load (Z.to_nat c')).
Proof.
  intros Hl Hg0 Hg1.
  destruct (erlang_b_loop_least load goal Hl Hg0)
    as (j & Hj & Hrun & Hbelow & Hmin).
  exists (Z.of_nat (S j)).
  assert (Hfuel : forall fuel, (fuel_bound load goal <= fuel)%nat ->
            calculate_erlang_b fuel load goal = Some (Ok (Z.of_nat (S j)))).
  { intros fuel Hf. rewrite calculate_erlang_b_valid by assumption.
    now apply Hrun. }
  split; [lia|]. split; [exact Hfuel|]. split; [|split].
  - intros fuel r Hr.
    rewrite calculate_erlang_b_valid in Hr by assumption.
    apply (erlang_b_loop_fuel_mono _ _ _ (Nat.max fuel (fuel_bound load goal)))
      in Hr; [|lia].
    rewrite <- calculate_erlang_b_valid in Hr by assumption.
    rewrite Hfuel in Hr by lia. congruence.
  - rewrite Nat2Z.id, (erlangB_spec_running load Hl). exact Hbelow.
  - intros c' Hc'.
    replace (Z.to_nat c') with (S (Z.to_nat (c' - 1))) by lia.
    rewrite (erlangB_spec_running load Hl). apply Hmin. lia.
Qed.

Lemma calculate_erlang_b_least_channels_witness :
  0 <= 5 /\ 0 < 1 # 100 /\ 1 # 100 < 1 /\
  exists c : Z,
    (1 <= c)%Z
    /\ (forall fuel, (fuel_bound 5 (1 # 100) <= fuel)%nat ->
          calculate_erlang_b fuel 5 (1 # 100) = Some (Ok c))
    /\ (forall fuel r,
          calculate_erlang_b fuel 5 (1 # 100) = Some r -> r = Ok c)
    /\ erlangB_spec 5 (Z.to_nat c) < 1 # 100
    /\ (forall c', (1 <= c' < c)%Z ->
          1 # 100 <= erlangB_spec 5 (Z.to_nat c')).
Proof.
  split; [discriminate|]. split; [reflexivity|]. split; [reflexivity|].
  apply (calculate_erlang_b_least_channels 5 (1 # 100));
    [discriminate | reflexivity | reflexivity].
Defined.

(** For a positive load the blocking probability of the previous theorem is
    the value [calculate_blocking_probability] returns. *)
Corollary calculate_erlang_b_least_channels_code (load goal : Q) :
  0 < load -> 0 < goal -> goal < 1 ->
  exists (c : Z) (b : Q),
    (forall fuel, (fuel_bound load goal <= fuel)%nat ->
       calculate_erlang_b fuel load goal = Some (Ok c))
    /\ calculate_blocking_probability load c = Ok b /\ b < goal
    /\ (forall c', (1 <= c' < c)%Z ->
          exists b', calculate_blocking_probability load c' = Ok b'
                     /\ goal <= b').
Proof.
  intros Hl Hg0 Hg1.
  destruct (erlang_b_loop_least load goal (Qlt_le_weak _ _ Hl) Hg0)
    as (j & Hj & Hrun & Hbelow & Hmin).
  exists (Z.of_nat (S j)). eexists. split; [|split; [|split]].
  - intros fuel Hf. rewrite calculate_erlang_b_valid by (assumption || lra).
    now apply Hrun.
  - apply blocking_probability_ok; [exact Hl | lia].
  - rewrite <- (erlangB_spec_blocking_iter load Hl), Nat2Z.id.
    rewrite (erlangB_spec_running load (Qlt_le_weak _ _ Hl)). exact Hbelow.
  - intros c' Hc'. eexists. split.
    + apply blocking_probability_ok; [exact Hl | lia].
    + rewrite <- (erlangB_spec_blocking_iter load Hl).
      replace (Z.to_nat c') with (S (Z.to_nat (c' - 1))) by lia.
      rewrite (erlangB_spec_running load (Qlt_le_weak _ _ Hl)).
      apply Hmin. lia.
Qed.

(** C10: with [load = 0] and a goal in (0,1) the first pass computes a
    blocking value of 0, below the goal, and the search returns 1 whatever
    the (non-zero) fuel: it stops in its first pass and does not raise. *)
Theorem calculate_erlang_b_zero_load (goal : Q) (fuel : nat) :
  0 < goal -> goal < 1 ->
  calculate_erlang_b (S fuel) 0 goal = Some (Ok 1%Z).
Proof.
  intros Hg0 Hg1.
  rewrite calculate_erlang_b_valid by (assumption || apply Qle_refl).
  cbn [erlang_b_loop].
  change (erlang_b_body 0 1 1 1)
    with (erlang_b_body 0 (Z.of_nat 1) (running_d 0 0) (running_e 0 0)).
  rewrite erlang_b_body_ok by apply Qle_refl.
  assert (H0 : running_block 0 1 == 0) by reflexivity.
  replace (Qltb (running_block 0 1) goal) with true; [reflexivity|].
  symmetry. apply Qltb_true. now rewrite H0.
Qed.

Lemma calculate_erlang_b_zero_load_witness :
  0 < 1 # 100 /\ 1 # 100 < 1 /\
  calculate_erlang_b 1 0 (1 # 100) = Some (Ok 1%Z).
Proof.
  split; [reflexivity|]. split; [reflexivity|].
  apply (calculate_erlang_b_zero_load (1 # 100) 0); reflexivity.
Defined.

(** ** calculate_erlang_c *)

(** The [except OverflowError] handler. *)
Lemma erlang_c_handler (load : Q) (channels : Z) :
  load < inject_Z channels ->
  erlang_c_try_body load channels = Raise OverflowError ->
  calculate_erlang_c load channels = Ok PInf.
Proof.
  intros Hc Hov. unfold calculate_erlang_c.
  replace (Qle_bool (inject_Z channels) load) with false
    by (symmetry; now apply Qle_bool_false).
  now rewrite Hov.
Qed.

(** C1 (as the code has it): below saturation, when a term inside [try]
    raises [OverflowError], the handler returns [float('inf')]. *)
Theorem erlang_c_overflow_returns_inf (load : Q) (channels : Z) :
  0 <= load -> load < inject_Z channels ->
  erlang_c_try_body load channels = Raise OverflowError ->
  calculate_erlang_c load channels = Ok PInf.
Proof.
  intros _ Hc Hov. now apply erlang_c_handler.
Qed.

Lemma erlang_c_overflow_returns_inf_witness :
  0 <= 1 /\ 1 < inject_Z 171 /\
  erlang_c_try_body 1 171 = Raise OverflowError /\
  calculate_erlang_c 1 171 = Ok PInf.
Proof.
  split; [discriminate|]. split; [reflexivity|].
  split; [now vm_compute|].
  apply (erlang_c_overflow_returns_inf 1 171);
    [discriminate | reflexivity | now vm_compute].
Defined.

(** C1 as stated fails: at [load = 1], [channels = 171] the conversion of
    [171!] to a float overflows and the result is [float('inf')], not 1. *)
Lemma erlang_c_overflow_is_not_one :
  0 <= 1 /\ 1 < inject_Z 171 /\
  erlang_c_try_body 1 171 = Raise OverflowError /\
  ~ (exists q : Q, calculate_erlang_c 1 171 = Ok (Fin q) /\ q == 1).
Proof.
  split; [discriminate|]. split; [reflexivity|].
  split; [now vm_compute|].
  intros (q & Hq & _).
  assert (H : calculate_erlang_c 1 171 = Ok PInf) by (now vm_compute).
  rewrite H in Hq. clear H. discriminate Hq.
Qed.

(** From 171 channels on, [channels!] has no finite double: every call below
    saturation returns [float('inf')]. *)
Lemma erlang_c_inf_from_171_channels (load : Q) (channels : Z) :
  0 <= load -> load < inject_Z channels -> (171 <= channels)%Z ->
  calculate_erlang_c load channels = Ok PInf.
Proof.
  intros Hl Hc H171. apply erlang_c_handler; [assumption|].
  unfold erlang_c_try_body.
  destruct (math_pow_cases load channels) as [-> | ->];
    [lia | reflexivity |].
  rewrite math_factorial_ok by lia. cbn [bind].
  unfold div_float_int, float_of_int.
  rewrite overflows_inject_Z; [reflexivity|].
  transitivity (fact_upto 171); [now vm_compute|].
  apply fact_upto_mono. lia.
Qed.

(** C4: [calculate_erlang_c] and [calculate_waiting_time] have no guard:
    a negative load or a channel count below 1 is accepted and a number
    comes back (-0.6 for (-1, 3), 1 for (5, 0), -1.5 for the waiting time),
    where [calculate_blocking_probability] raises [ValueError]. *)
Theorem erlang_c_accepts_invalid_input :
  (exists q : Q, calculate_erlang_c (-1) 3 = Ok (Fin q) /\ q == - (3 # 5))
  /\ calculate_erlang_c 5 0 = Ok (Fin 1)
  /\ (exists q : Q,
        calculate_waiting_time (-1) 3 10 = Ok (Fin q) /\ q == - (3 # 2))
  /\ calculate_blocking_probability (-1) 3 = Raise ValueError
  /\ calculate_blocking_probability 5 0 = Raise ValueError.
Proof.
  split; [eexists; split; [now vm_compute | reflexivity]|].
  split; [reflexivity|].
  split; [eexists; split; [now vm_compute | reflexivity]|].
  split; reflexivity.
Qed.

(** Below saturation and for a positive load, the value returned by
    [calculate_erlang_c] is at least the one returned by
    [calculate_blocking_probability]. *)
Lemma erlang_c_dominates_blocking (load : Q) (channels : Z) :
  0 < load -> load < inject_Z channels ->
  exists (x : pyfloat) (b : Q),
    calculate_erlang_c load channels = Ok x
    /\ calculate_blocking_probability load channels = Ok b
    /\ pyfloat_ge x b.
Proof.
  intros Hl Hc.
  assert (Hpos : (1 <= channels)%Z).
  { assert (H : inject_Z 0 < inject_Z channels)
      by (eapply Qlt_trans; [exact Hl | exact Hc]).
    rewrite <- Zlt_Qlt in H. lia. }
  assert (Hch : channels = Z.of_nat (S (Z.to_nat (channels - 1)))) by lia.
  set (n := Z.to_nat (channels - 1)) in *.
  assert (Hl0 : 0 <= load) by lra.
  rewrite Hch in Hc.
  pose proof (erlang_c_cases load n Hl0 Hc) as Hcases.
  pose proof (erlang_c_quotient_ge_block load n Hl0 Hc) as Hge.
  rewrite <- Hch in Hcases.
  pose proof (blocking_probability_ok load Hl channels Hpos) as Hb.
  replace (Z.to_nat channels) with (S n) in Hb by lia.
  destruct Hcases as [Hx | Hx]; do 2 eexists;
    (split; [exact Hx|]); (split; [exact Hb|]); cbn [pyfloat_ge].
  - exact I.
  - rewrite <- (erlangB_spec_blocking_iter load Hl).
    rewrite (erlangB_spec_running load Hl0). exact Hge.
Qed.

(** C9: at [load = 0], [channels = 1] (valid, below saturation) the delay
    probability is 0 but there is no blocking probability to compare it
    with: [calculate_blocking_probability] raises. *)
Theorem erlang_c_without_blocking_at_zero_load :
  (exists q : Q, calculate_erlang_c 0 1 = Ok (Fin q) /\ q == 0)
  /\ calculate_blocking_probability 0 1 = Raise ZeroDivisionError.
Proof.
  split; [eexists; split; [now vm_compute | reflexivity]|].
  reflexivity.
Qed.

(** * Further properties *)

(** ** Rounding to four decimals *)

Lemma round_half_even_close (x : Q) :
  - (1 # 2) <= inject_Z (round_half_even x) - x <= 1 # 2.
Proof.
  pose proof (Qfloor_le x) as Hlo.
  pose proof (Qlt_floor x) as Hhi. rewrite inject_Z_plus in Hhi.
  unfold round_half_even.
  destruct (Qltb (x - inject_Z (Qfloor x)) (1 # 2)) eqn:H1.
  - apply Qltb_true in H1. change (inject_Z 1) with 1 in Hhi. lra.
  - apply Qltb_false in H1.
    destruct (Qltb (1 # 2) (x - inject_Z (Qfloor x))) eqn:H2.
    + rewrite inject_Z_plus. change (inject_Z 1) with 1 in *. lra.
    + apply Qltb_false in H2. change (inject_Z 1) with 1 in *.
      destruct (Z.even (Qfloor x)); [|rewrite inject_Z_plus];
        change (inject_Z 1) with 1; lra.
Qed.

Lemma round_half_even_nonneg (x : Q) : 0 <= x -> (0 <= round_half_even x)%Z.
Proof.
  intro Hx.
  assert (Hf : (0 <= Qfloor x)%Z).
  { change 0%Z with (Qfloor 0). now apply Qfloor_resp_le. }
  unfold round_half_even.
  destruct (Qltb _ _); [exact Hf|].
  destruct (Qltb _ _); [lia|].
  destruct (Z.even _); lia.
Qed.

Lemma py_round_4_close (x : Q) :
  - (1 # 20000) <= py_round x 4 - x <= 1 # 20000.
Proof.
  unfold py_round. change (inject_Z (10 ^ 4)) with (10000 # 1).
  pose proof (round_half_even_close (x * (10000 # 1))) as H.
  remember (inject_Z (round_half_even (x * (10000 # 1)))) as z.
  setoid_replace (z / (10000 # 1)) with (z * (1 # 10000)) by (field; lra).
  lra.
Qed.

Lemma py_round_4_nonneg (x : Q) : 0 <= x -> 0 <= py_round x 4.
Proof.
  intro Hx. unfold py_round. change (inject_Z (10 ^ 4)) with (10000 # 1).
  assert (Hz : 0 <= inject_Z (round_half_even (x * (10000 # 1)))).
  { change 0 with (inject_Z 0). rewrite <- Zle_Qle.
    apply round_half_even_nonneg. lra. }
  apply Qle_shift_div_l; [reflexivity|]. lra.
Qed.

(** [calculate_erlang] raises exactly when an argument is negative, and then
    it is [ValueError]. *)
Theorem calculate_erlang_raises_iff
    (arrival_rate mean_hold_time average_call_time : Q) (e : exn) :
  calculate_erlang arrival_rate mean_hold_time average_call_time = Raise e
  <-> e = ValueError
      /\ (arrival_rate < 0 \/ mean_hold_time < 0 \/ average_call_time < 0).
Proof.
  unfold calculate_erlang.
  destruct (Qltb arrival_rate 0) eqn:Ha;
    [apply Qltb_true in Ha | apply Qltb_false in Ha];
    cbn [orb].
  { split; [intro H; split; [congruence | now left] | now intros [-> _]]. }
  destruct (Qltb mean_hold_time 0) eqn:Hh;
    [apply Qltb_true in Hh | apply Qltb_false in Hh];
    cbn [orb].
  { split; [intro H; split; [congruence | now right; left] | now intros [-> _]]. }
  destruct (Qltb average_call_time 0) eqn:Ht;
    [apply Qltb_true in Ht | apply Qltb_false in Ht].
  { split; [intro H; split; [congruence | now right; right] | now intros [-> _]]. }
  split; [discriminate|].
  intros [_ [H | [H | H]]]; exfalso; lra.
Qed.

(** For non-negative arguments the hourly form returns the load that
    [calculate_offered_load] gives on the same traffic per second, rounded:
    the two differ by at most 0.00005, and the result is not negative. *)
Theorem calculate_erlang_matches_offered_load
    (arrival_rate mean_hold_time average_call_time : Q) :
  0 <= arrival_rate -> 0 <= mean_hold_time -> 0 <= average_call_time ->
  exists r : Q,
    calculate_erlang arrival_rate mean_hold_time average_call_time = Ok r
    /\ 0 <= r
    /\ Qabs (r - calculate_offered_load (arrival_rate / 3600)
                   (mean_hold_time + average_call_time)) <= 1 # 20000.
Proof.
  intros Ha Hh Ht. eexists. split; [now apply calculate_erlang_ok|].
  set (x := arrival_rate * ((mean_hold_time + average_call_time) / 60) / 60).
  assert (Hx : 0 <= x).
  { unfold x. apply Qle_shift_div_l; [reflexivity|].
    assert (0 <= (mean_hold_time + average_call_time) / 60)
      by (apply Qle_shift_div_l; [reflexivity | lra]).
    nra. }
  split; [now apply py_round_4_nonneg|].
  assert (Hsame : calculate_offered_load (arrival_rate / 3600)
                    (mean_hold_time + average_call_time) == x).
  { unfold calculate_offered_load, x. field. }
  rewrite Hsame. apply Qabs_Qle_condition. apply py_round_4_close.
Qed.

Lemma calculate_erlang_matches_offered_load_witness :
  0 <= 100 /\ 0 <= 0 /\ 0 <= 180 /\
  exists r : Q,
    calculate_erlang 100 0 180 = Ok r
    /\ 0 <= r
    /\ Qabs (r - calculate_offered_load (100 / 3600) (0 + 180)) <= 1 # 20000.
Proof.
  split; [discriminate|]. split; [discriminate|]. split; [discriminate|].
  apply (calculate_erlang_matches_offered_load 100 0 180); discriminate.
Defined.

(** ** calculate_blocking_probability: outcomes, bounds, monotonicity *)

Lemma blocking_probability_guard (erlangs : Q) (channels : Z) :
  erlangs < 0 \/ (channels < 1)%Z ->
  calculate_blocking_probability erlangs channels = Raise ValueError.
Proof.
  intro H. unfold calculate_blocking_probability.
  destruct (Qltb erlangs 0) eqn:He; [reflexivity|].
  apply Qltb_false in He.
  destruct H as [H | H]; [exfalso; lra|].
  now replace (channels <? 1)%Z with true by (symmetry; apply Z.ltb_lt; lia).
Qed.

(** The three outcomes of [calculate_blocking_probability]: [ValueError]
    for a negative load or fewer than one channel, [ZeroDivisionError] for a
    zero load, a value for a positive load. *)
Theorem blocking_probability_outcomes (erlangs : Q) (channels : Z) :
  (calculate_blocking_probability erlangs channels = Raise ValueError
   <-> erlangs < 0 \/ (channels < 1)%Z)
  /\ (calculate_blocking_probability erlangs channels = Raise ZeroDivisionError
      <-> erlangs == 0 /\ (1 <= channels)%Z)
  /\ ((exists b, calculate_blocking_probability erlangs channels = Ok b)
      <-> 0 < erlangs /\ (1 <= channels)%Z).
Proof.
  destruct (Z.ltb_spec channels 1) as [Hc | Hc].
  { rewrite blocking_probability_guard by now right.
    split; [|split]; split.
    - intros _. now right.
    - reflexivity.
    - discriminate.
    - intros [_ Hge]. lia.
    - intros [b Hb]. discriminate Hb.
    - intros [_ Hge]. lia. }
  destruct (Qlt_le_dec erlangs 0) as [He | He].
  { rewrite blocking_probability_guard by now left.
    split; [|split]; split.
    - intros _. now left.
    - reflexivity.
    - discriminate.
    - intros [Hz _]. exfalso. lra.
    - intros [b Hb]. discriminate Hb.
    - intros [Hp _]. exfalso. lra. }
  destruct (Qeq_dec erlangs 0) as [Hz | Hz].
  { rewrite blocking_probability_divides_by_zero by assumption.
    split; [|split]; split.
    - discriminate.
    - intros [Hn | Hn]; [exfalso; lra | lia].
    - intros _. now split.
    - reflexivity.
    - intros [b Hb]. discriminate Hb.
    - intros [Hp _]. exfalso. lra. }
  assert (Hpos : 0 < erlangs).
  { destruct (Qle_lt_or_eq _ _ He) as [Hlt | Heq];
      [exact Hlt | exfalso; apply Hz; now symmetry]. }
  rewrite (blocking_probability_ok erlangs Hpos channels Hc).
  split; [|split]; split.
  - discriminate.
  - intros [Hn | Hn]; [exfalso; lra | lia].
  - discriminate.
  - intros [Hn _]. contradiction.
  - intros _. now split.
  - intros _. eexists. reflexivity.
Qed.

Lemma blocking_iter_gt1 (erlangs : Q) (n : nat) :
  0 < erlangs -> 1 < blocking_iter erlangs (S n).
Proof.
  intro He.
  pose proof (blocking_iter_incr erlangs He n).
  pose proof (blocking_iter_ge1 erlangs He n). lra.
Qed.

(** For a positive load the value returned is strictly between 0 and 1,
    and at most [load / channels]. *)
Theorem blocking_probability_bounds (load : Q) (channels : Z) :
  0 < load -> (1 <= channels)%Z ->
  exists b : Q,
    calculate_blocking_probability load channels = Ok b
    /\ 0 < b /\ b < 1 /\ b <= load / inject_Z channels.
Proof.
  intros Hl Hc. eexists. split; [now apply blocking_probability_ok|].
  replace (Z.to_nat channels) with (S (Z.to_nat (channels - 1))) by lia.
  set (n := Z.to_nat (channels - 1)).
  pose proof (blocking_iter_gt1 load n Hl) as Hb.
  split; [|split].
  - apply Qlt_shift_div_l; lra.
  - apply Qlt_shift_div_r; lra.
  - rewrite <- (erlangB_spec_blocking_iter load Hl).
    rewrite (erlangB_spec_running load (Qlt_le_weak _ _ Hl)).
    replace channels with (Z.of_nat (S n)) by (unfold n; lia).
    apply running_block_decay. lra.
Qed.

Lemma blocking_probability_bounds_witness :
  0 < 10 /\ (1 <= 15)%Z /\
  exists b : Q,
    calculate_blocking_probability 10 15 = Ok b
    /\ 0 < b /\ b < 1 /\ b <= 10 / inject_Z 15.
Proof.
  split; [reflexivity|]. split; [lia|].
  apply (blocking_probability_bounds 10 15); [reflexivity | lia].
Defined.

Lemma blocking_iter_antitone (load1 load2 : Q) (n : nat) :
  0 < load1 -> load1 < load2 ->
  blocking_iter load2 (S n) < blocking_iter load1 (S n).
Proof.
  intros H1 H12. assert (H2 : 0 < load2) by lra.
  assert (Hweak : forall m,
             blocking_iter load2 m <= blocking_iter load1 m
             -> blocking_iter load2 (S m) < blocking_iter load1 (S m)).
  { intros m Hm. rewrite !blocking_iter_S.
    pose proof (blocking_iter_pos load1 H1 m) as Hp1.
    pose proof (blocking_iter_pos load2 H2 m) as Hp2.
    pose proof (inject_nat_pos m) as Hk.
    remember (blocking_iter load1 m) as x1.
    remember (blocking_iter load2 m) as x2.
    remember (inject_Z (Z.of_nat (S m))) as k.
    apply Qplus_lt_r.
    apply Qlt_shift_div_r; [exact H2|].
    setoid_replace (k * x1 / load1 * load2) with ((k * x1 * load2) / load1)
      by (field; lra).
    apply Qlt_shift_div_l; [exact H1|].
    assert (Hx : x2 * load1 < x1 * load2) by nra.
    setoid_replace (k * x2 * load1) with (k * (x2 * load1)) by ring.
    setoid_replace (k * x1 * load2) with (k * (x1 * load2)) by ring.
    nra. }
  induction n as [|n IH].
  - apply Hweak. apply Qle_refl.
  - apply Hweak. now apply Qlt_le_weak.
Qed.

(** For a fixed channel count the blocking probability grows strictly with
    the load. *)
Theorem blocking_probability_increasing_in_load (load1 load2 : Q) (channels : Z) :
  0 < load1 -> load1 < load2 -> (1 <= channels)%Z ->
  exists b1 b2 : Q,
    calculate_blocking_probability load1 channels = Ok b1
    /\ calculate_blocking_probability load2 channels = Ok b2
    /\ b1 < b2.
Proof.
  intros H1 H12 Hc. assert (H2 : 0 < load2) by lra.
  do 2 eexists. split; [|split].
  - now apply blocking_probability_ok.
  - now apply blocking_probability_ok.
  - replace (Z.to_nat channels) with (S (Z.to_nat (channels - 1))) by lia.
    set (n := Z.to_nat (channels - 1)).
    pose proof (blocking_iter_antitone load1 load2 n H1 H12) as Hlt.
    pose proof (blocking_iter_pos load2 H2 (S n)) as Hp.
    remember (blocking_iter load1 (S n)) as x.
    remember (blocking_iter load2 (S n)) as y.
    apply Qlt_shift_div_r; [lra|].
    setoid_replace (1 / y * x) with (x / y) by (field; lra).
    apply Qlt_shift_div_l; lra.
Qed.

Lemma blocking_probability_increasing_in_load_witness :
  0 < 5 /\ 5 < 10 /\ (1 <= 15)%Z /\
  exists b1 b2 : Q,
    calculate_blocking_probability 5 15 = Ok b1
    /\ calculate_blocking_probability 10 15 = Ok b2
    /\ b1 < b2.
Proof.
  split; [reflexivity|]. split; [reflexivity|]. split; [lia|].
  apply (blocking_probability_increasing_in_load 5 10 15);
    [reflexivity | reflexivity | lia].
Defined.

(** ** Carried, lost and accessible traffic *)

(** Carried and overflow traffic add up to the offered load. *)
Theorem effective_plus_overflow_traffic (offered_load blocking_probability : Q) :
  calculate_effective_traffic offered_load blocking_probability
  + calculate_overflow_traffic offered_load blocking_probability
  == offered_load.
Proof.
  unfold calculate_effective_traffic, calculate_overflow_traffic. ring.
Qed.

Lemma carried_traffic_aux (load : Q) (n : nat) :
  0 < load ->
  0 < load * (1 - 1 / blocking_iter load (S n))
  /\ load * (1 - 1 / blocking_iter load (S n)) < load
  /\ load * (1 - 1 / blocking_iter load (S n)) < inject_Z (Z.of_nat (S n)).
Proof.
  intro Hl.
  pose proof (blocking_iter_gt1 load n Hl) as Hb.
  pose proof (blocking_iter_incr load Hl n) as Hincr.
  pose proof (blocking_iter_pos load Hl n) as Hb0.
  pose proof (inject_nat_pos n) as Hk.
  pose proof (erlangs_nonzero load Hl) as Hnz.
  assert (Hstep : load * (blocking_iter load (S n) - 1)
                  == inject_Z (Z.of_nat (S n)) * blocking_iter load n).
  { rewrite blocking_iter_S. field. exact Hnz. }
  remember (blocking_iter load (S n)) as y.
  remember (blocking_iter load n) as x.
  remember (inject_Z (Z.of_nat (S n))) as k.
  assert (Hy : 1 / y * y == 1) by (field; lra).
  remember (1 / y) as b.
  assert (Hb1 : 0 < b) by (rewrite Heqb; apply Qlt_shift_div_l; lra).
  assert (Hb2 : b < 1) by (rewrite Heqb; apply Qlt_shift_div_r; lra).
  split; [nra|]. split; [nra|].
  (* load * (1 - b) * y = load * (y - 1) = k * x < k * y *)
  assert (Hmul : load * (1 - b) * y == k * x).
  { setoid_replace (load * (1 - b) * y) with (load * (y - b * y)) by ring.
    rewrite Hy. exact Hstep. }
  assert (Hlt : load * (1 - b) * y < k * y) by (rewrite Hmul; nra).
  apply (Qmult_lt_r _ _ y); [lra | exact Hlt].
Qed.

(** With the blocking probability of [channels] channels, the carried
    traffic is positive, below the offered load and below the channel
    count. *)
Theorem carried_traffic_below_channels (load : Q) (channels : Z) :
  0 < load -> (1 <= channels)%Z ->
  exists b : Q,
    calculate_blocking_probability load channels = Ok b
    /\ 0 < calculate_effective_traffic load b
    /\ calculate_effective_traffic load b < load
    /\ calculate_effective_traffic load b < inject_Z channels.
Proof.
  intros Hl Hc. eexists. split; [now apply blocking_probability_ok|].
  replace (Z.to_nat channels) with (S (Z.to_nat (channels - 1))) by lia.
  set (n := Z.to_nat (channels - 1)).
  replace (inject_Z channels) with (inject_Z (Z.of_nat (S n)))
    by (f_equal; unfold n; lia).
  apply carried_traffic_aux. exact Hl.
Qed.

Lemma carried_traffic_below_channels_witness :
  0 < 10 /\ (1 <= 3)%Z /\
  exists b : Q,
    calculate_blocking_probability 10 3 = Ok b
    /\ 0 < calculate_effective_traffic 10 b
    /\ calculate_effective_traffic 10 b < 10
    /\ calculate_effective_traffic 10 b < inject_Z 3.
Proof.
  split; [reflexivity|]. split; [lia|].
  apply (carried_traffic_below_channels 10 3); [reflexivity | lia].
Defined.

(** Service accessibility, on the blocking probabilities of [c] and [c + 1]
    channels, stays strictly between 0 and 100 and grows strictly with the
    channel count. *)
Theorem service_accessibility_grows_with_channels (load : Q) (c : Z) :
  0 < load -> (1 <= c)%Z ->
  exists b1 b2 : Q,
    calculate_blocking_probability load c = Ok b1
    /\ calculate_blocking_probability load (c + 1) = Ok b2
    /\ 0 < calculate_service_accessibility b1
    /\ calculate_service_accessibility b1 < calculate_service_accessibility b2
    /\ calculate_service_accessibility b2 < 100.
Proof.
  intros Hl Hc. do 2 eexists. split; [|split].
  - now apply blocking_probability_ok.
  - apply blocking_probability_ok; [exact Hl | lia].
  - replace (Z.to_nat (c + 1)) with (S (Z.to_nat c)) by lia.
    replace (Z.to_nat c) with (S (Z.to_nat (c - 1))) by lia.
    set (n := Z.to_nat (c - 1)).
    pose proof (blocking_iter_gt1 load n Hl) as Hx.
    pose proof (blocking_iter_incr load Hl (S n)) as Hxy.
    remember (blocking_iter load (S n)) as x.
    remember (blocking_iter load (S (S n))) as y.
    assert (Hbx : 1 / x * x == 1) by (field; lra).
    assert (Hby : 1 / y * y == 1) by (field; lra).
    assert (Hx1 : 1 / x < 1) by (apply Qlt_shift_div_r; lra).
    assert (Hy0 : 0 < 1 / y) by (apply Qlt_shift_div_l; lra).
    assert (Hyx : 1 / y < 1 / x).
    { apply Qlt_shift_div_r; [lra|].
      setoid_replace (1 / x * y) with (y / x) by (field; lra).
      apply Qlt_shift_div_l; lra. }
    unfold calculate_service_accessibility.
    remember (1 / x) as b1. remember (1 / y) as b2.
    repeat split; lra.
Qed.

Lemma service_accessibility_grows_with_channels_witness :
  0 < 10 /\ (1 <= 15)%Z /\
  exists b1 b2 : Q,
    calculate_blocking_probability 10 15 = Ok b1
    /\ calculate_blocking_probability 10 (15 + 1) = Ok b2
    /\ 0 < calculate_service_accessibility b1
    /\ calculate_service_accessibility b1 < calculate_service_accessibility b2
    /\ calculate_service_accessibility b2 < 100.
Proof.
  split; [reflexivity|]. split; [lia|].
  apply (service_accessibility_grows_with_channels 10 15); [reflexivity | lia].
Defined.

(** ** calculate_erlang_b: outcomes, size of the answer, monotonicity *)

(** Whatever the fuel, an answer of the search on valid arguments is the
    least channel count whose blocking is below the goal. *)
Lemma calculate_erlang_b_answer (fuel : nat) (load goal : Q) (r : result Z) :
  0 <= load -> 0 < goal -> goal < 1 ->
  calculate_erlang_b fuel load goal = Some r ->
  exists j : nat,
    r = Ok (Z.of_nat (S j))
    /\ (S j <= fuel_bound load goal)%nat
    /\ running_block load (S j) < goal
    /\ (forall i, (i < j)%nat -> goal <= running_block load (S i)).
Proof.
  intros Hl Hg0 Hg1 Hr.
  destruct (erlang_b_loop_least load goal Hl Hg0)
    as (j & Hj & Hrun & Hbelow & Hmin).
  exists j. split; [|now repeat split].
  rewrite calculate_erlang_b_valid in Hr by assumption.
  apply (erlang_b_loop_fuel_mono _ _ _ (Nat.max fuel (fuel_bound load goal)))
    in Hr; [|lia].
  rewrite Hrun in Hr by lia. congruence.
Qed.

(** The search raises exactly on arguments its guard rejects, and then it is
    [ValueError]: on valid arguments no division in the loop fails. *)
Theorem calculate_erlang_b_raises_iff (fuel : nat) (erlangs goal : Q) (e : exn) :
  calculate_erlang_b fuel erlangs goal = Some (Raise e)
  <-> e = ValueError /\ (erlangs < 0 \/ goal <= 0 \/ 1 <= goal).
Proof.
  split.
  - intro Hr.
    destruct (Qlt_le_dec erlangs 0) as [He | He].
    { unfold calculate_erlang_b in Hr.
      replace (Qltb erlangs 0) with true in Hr
        by (symmetry; now apply Qltb_true).
      cbn [orb] in Hr. split; [congruence | now left]. }
    destruct (Qlt_le_dec 0 goal) as [Hg0 | Hg0].
    2:{ unfold calculate_erlang_b in Hr.
        replace (Qle_bool goal 0) with true in Hr
          by (symmetry; now apply Qle_bool_iff).
        rewrite orb_true_r in Hr. cbn [orb] in Hr.
        split; [congruence | now right; left]. }
    destruct (Qlt_le_dec goal 1) as [Hg1 | Hg1].
    2:{ unfold calculate_erlang_b in Hr.
        replace (Qle_bool 1 goal) with true in Hr
          by (symmetry; now apply Qle_bool_iff).
        rewrite orb_true_r in Hr.
        split; [congruence | now right; right]. }
    destruct (calculate_erlang_b_answer fuel erlangs goal _ He Hg0 Hg1 Hr)
      as (j & Hj & _). discriminate Hj.
  - intros [-> Hbad]. unfold calculate_erlang_b.
    destruct Hbad as [H | [H | H]].
    + now replace (Qltb erlangs 0) with true by (symmetry; now apply Qltb_true).
    + replace (Qle_bool goal 0) with true by (symmetry; now apply Qle_bool_iff).
      now rewrite orb_true_r.
    + replace (Qle_bool 1 goal) with true by (symmetry; now apply Qle_bool_iff).
      now rewrite orb_true_r.
Qed.

(** The channel count returned is at most [floor(load / goal) + 1], and that
    many passes are what the loop needs at most. *)
Theorem calculate_erlang_b_at_most (fuel : nat) (load goal : Q) (c : Z) :
  0 <= load -> 0 < goal -> goal < 1 ->
  calculate_erlang_b fuel load goal = Some (Ok c) ->
  (1 <= c <= Qfloor (load / goal) + 1)%Z.
Proof.
  intros Hl Hg0 Hg1 Hr.
  destruct (calculate_erlang_b_answer fuel load goal _ Hl Hg0 Hg1 Hr)
    as (j & Hj & Hb & _).
  injection Hj as ->. unfold fuel_bound in Hb.
  assert (Hq : 0 <= load / goal).
  { apply Qle_shift_div_l; [exact Hg0|]. lra. }
  assert (Hf : (0 <= Qfloor (load / goal))%Z).
  { change 0%Z with (Qfloor 0). now apply Qfloor_resp_le. }
  lia.
Qed.

Lemma calculate_erlang_b_at_most_witness :
  0 <= 5 /\ 0 < 1 # 100 /\ 1 # 100 < 1 /\
  calculate_erlang_b 20 5 (1 # 100) = Some (Ok 11%Z) /\
  (1 <= 11 <= Qfloor (5 / (1 # 100)) + 1)%Z.
Proof.
  split; [discriminate|]. split; [reflexivity|]. split; [reflexivity|].
  split; [now vm_compute|].
  apply (calculate_erlang_b_at_most 20 5 (1 # 100) 11);
    [discriminate | reflexivity | reflexivity | now vm_compute].
Defined.

(** A stricter goal never needs fewer channels. *)
Theorem calculate_erlang_b_antitone_in_goal
    (fuel1 fuel2 : nat) (load goal1 goal2 : Q) (c1 c2 : Z) :
  0 <= load -> 0 < goal1 -> goal1 <= goal2 -> goal2 < 1 ->
  calculate_erlang_b fuel1 load goal1 = Some (Ok c1) ->
  calculate_erlang_b fuel2 load goal2 = Some (Ok c2) ->
  (c2 <= c1)%Z.
Proof.
  intros Hl Hg1 Hg12 Hg2 Hr1 Hr2.
  assert (Hg1' : goal1 < 1) by lra. assert (Hg2' : 0 < goal2) by lra.
  destruct (calculate_erlang_b_answer fuel1 load goal1 _ Hl Hg1 Hg1' Hr1)
    as (j1 & Hj1 & _ & Hbelow1 & _).
  destruct (calculate_erlang_b_answer fuel2 load goal2 _ Hl Hg2' Hg2 Hr2)
    as (j2 & Hj2 & _ & _ & Hmin2).
  injection Hj1 as ->. injection Hj2 as ->.
  destruct (Nat.lt_ge_cases j1 j2) as [Hlt | Hge]; [|lia].
  specialize (Hmin2 j1 Hlt). exfalso. lra.
Qed.

Lemma calculate_erlang_b_antitone_in_goal_witness :
  0 <= 5 /\ 0 < 1 # 100 /\ 1 # 100 <= 1 # 10 /\ 1 # 10 < 1 /\
  calculate_erlang_b 20 5 (1 # 100) = Some (Ok 11%Z) /\
  calculate_erlang_b 20 5 (1 # 10) = Some (Ok 8%Z) /\
  (8 <= 11)%Z.
Proof.
  split; [discriminate|]. split; [reflexivity|]. split; [discriminate|].
  split; [reflexivity|]. split; [now vm_compute|]. split; [now vm_compute|].
  apply (calculate_erlang_b_antitone_in_goal 20 20 5 (1 # 100) (1 # 10) 11 8);
    [discriminate | reflexivity | discriminate | reflexivity
    | now vm_compute | now vm_compute].
Defined.

Lemma erlangB_spec_nonneg (load : Q) (n : nat) :
  0 <= load -> 0 <= erlangB_spec load n.
Proof.
  intro Hl. rewrite (erlangB_spec_running load Hl).
  now apply running_block_nonneg.
Qed.

Lemma erlangB_spec_mono_load (load1 load2 : Q) (n : nat) :
  0 <= load1 -> load1 <= load2 ->
  erlangB_spec load1 n <= erlangB_spec load2 n.
Proof.
  intros H1 H12. assert (H2 : 0 <= load2) by lra.
  induction n as [|n IH]; [apply Qle_refl|].
  rewrite !erlangB_spec_S.
  pose proof (erlangB_spec_nonneg load1 n H1) as Hb1.
  pose proof (erlangB_spec_nonneg load2 n H2) as Hb2.
  pose proof (inject_nat_pos n) as Hk.
  remember (erlangB_spec load1 n) as b1.
  remember (erlangB_spec load2 n) as b2.
  remember (inject_Z (Z.of_nat (S n))) as k.
  assert (Hx1 : 0 <= load1 * b1) by nra.
  assert (Hx12 : load1 * b1 <= load2 * b2) by nra.
  remember (load1 * b1) as x1. remember (load2 * b2) as x2.
  apply Qle_shift_div_l; [lra|].
  setoid_replace (x1 / (k + x1) * (k + x2)) with (x1 * (k + x2) / (k + x1))
    by (field; lra).
  apply Qle_shift_div_r; [lra|]. nra.
Qed.

(** A larger load never needs fewer channels for the same goal. *)
Theorem calculate_erlang_b_monotone_in_load
    (fuel1 fuel2 : nat) (load1 load2 goal : Q) (c1 c2 : Z) :
  0 <= load1 -> load1 <= load2 -> 0 < goal -> goal < 1 ->
  calculate_erlang_b fuel1 load1 goal = Some (Ok c1) ->
  calculate_erlang_b fuel2 load2 goal = Some (Ok c2) ->
  (c1 <= c2)%Z.
Proof.
  intros H1 H12 Hg0 Hg1 Hr1 Hr2. assert (H2 : 0 <= load2) by lra.
  destruct (calculate_erlang_b_answer fuel1 load1 goal _ H1 Hg0 Hg1 Hr1)
    as (j1 & Hj1 & _ & _ & Hmin1).
  destruct (calculate_erlang_b_answer fuel2 load2 goal _ H2 Hg0 Hg1 Hr2)
    as (j2 & Hj2 & _ & Hbelow2 & _).
  injection Hj1 as ->. injection Hj2 as ->.
  destruct (Nat.lt_ge_cases j2 j1) as [Hlt | Hge]; [|lia].
  specialize (Hmin1 j2 Hlt).
  pose proof (erlangB_spec_mono_load load1 load2 (S j2) H1 H12) as Hmono.
  rewrite (erlangB_spec_running load1 H1) in Hmono.
  rewrite (erlangB_spec_running load2 H2) in Hmono.
  exfalso. lra.
Qed.

Lemma calculate_erlang_b_monotone_in_load_witness :
  0 <= 5 /\ 5 <= 10 /\ 0 < 1 # 100 /\ 1 # 100 < 1 /\
  calculate_erlang_b 20 5 (1 # 100) = Some (Ok 11%Z) /\
  calculate_erlang_b 20 10 (1 # 100) = Some (Ok 18%Z) /\
  (11 <= 18)%Z.
Proof.
  split; [discriminate|]. split; [discriminate|]. split; [reflexivity|].
  split; [reflexivity|]. split; [now vm_compute|]. split; [now vm_compute|].
  apply (calculate_erlang_b_monotone_in_load 20 20 5 10 (1 # 100) 11 18);
    [discriminate | discriminate | reflexivity | reflexivity
    | now vm_compute | now vm_compute].
Defined.

(** ** calculate_erlang_c: when it is finite, and what it is then *)

Lemma overflows_false (x : Q) :
  Qabs x < inject_Z DBL_OVERFLOW -> overflows x = false.
Proof. intro H. unfold overflows. now apply Qle_bool_false. Qed.

Lemma overflows_false_inv (x : Q) :
  overflows x = false -> Qabs x < inject_Z DBL_OVERFLOW.
Proof. intro H. unfold overflows in H. now apply Qle_bool_false in H. Qed.

Lemma float_of_int_ok (n : Z) :
  (Z.abs n < DBL_OVERFLOW)%Z -> float_of_int n = Ok (inject_Z n).
Proof.
  intro H. unfold float_of_int. rewrite overflows_false; [reflexivity|].
  change (Qabs (inject_Z n)) with (inject_Z (Z.abs n)). now rewrite <- Zlt_Qlt.
Qed.

Lemma small_int_fits (n : Z) : (0 <= n <= 170)%Z -> (Z.abs n < DBL_OVERFLOW)%Z.
Proof.
  intro H. assert (H0 : (170 < DBL_OVERFLOW)%Z) by (now vm_compute). lia.
Qed.

Lemma fact_upto_fits (k : nat) :
  (k <= 170)%nat -> (Z.abs (fact_upto k) < DBL_OVERFLOW)%Z.
Proof.
  intro Hk. pose proof (fact_upto_pos k) as Hp.
  pose proof (fact_upto_mono k 170 Hk) as Hm.
  assert (H0 : (fact_upto 170 < DBL_OVERFLOW)%Z) by (now vm_compute).
  lia.
Qed.

Lemma Qpower_nat_le_one (x : Q) (k : nat) :
  0 <= x -> x <= 1 -> x ^ Z.of_nat k <= 1.
Proof.
  intros H0 H1. induction k as [|k IH]; [discriminate|].
  rewrite Nat2Z.inj_succ. unfold Z.succ.
  rewrite Qpower_plus' by lia. rewrite Qpower_1_r.
  pose proof (Qpower_0_le x (Z.of_nat k) H0). nra.
Qed.

Lemma pow_fits (x : Q) (k c : nat) :
  0 <= x -> (k <= c)%nat ->
  overflows (x ^ Z.of_nat c) = false -> overflows (x ^ Z.of_nat k) = false.
Proof.
  intros Hx Hkc Hc. apply overflows_false. apply overflows_false_inv in Hc.
  rewrite Qabs_pos in * by now apply Qpower_0_le.
  destruct (Qlt_le_dec 1 x) as [Hgt | Hle].
  - eapply Qle_lt_trans; [|exact Hc].
    apply Qpower_le_compat_l; [lia | lra].
  - eapply Qle_lt_trans; [now apply Qpower_nat_le_one|]. reflexivity.
Qed.

Lemma math_pow_ok (x : Q) (k : nat) :
  (k <= 170)%nat -> overflows (x ^ Z.of_nat k) = false ->
  math_pow x (Z.of_nat k) = Ok (x ^ Z.of_nat k).
Proof.
  intros Hk Hov. unfold math_pow.
  rewrite float_of_int_ok by (apply small_int_fits; lia). cbn [bind].
  replace (Z.of_nat k <? 0)%Z with false by (symmetry; apply Z.ltb_ge; lia).
  now rewrite andb_false_r, Hov.
Qed.

Lemma poisson_term_ok (x : Q) (k : nat) :
  (k <= 170)%nat -> overflows (x ^ Z.of_nat k) = false ->
  poisson_term x (Z.of_nat k) = Ok (term x k).
Proof.
  intros Hk Hov. unfold poisson_term.
  rewrite math_pow_ok by assumption. cbn [bind].
  rewrite math_factorial_ok, Nat2Z.id by lia. cbn [bind].
  unfold div_float_int. rewrite float_of_int_ok by now apply fact_upto_fits.
  cbn [bind]. apply pydiv_ok.
  pose proof (inject_Z_pos _ (fact_upto_pos k)). lra.
Qed.

Lemma poisson_sum_ok (x : Q) (c : nat) :
  0 <= x -> (c <= 170)%nat -> overflows (x ^ Z.of_nat c) = false ->
  poisson_sum x (Z.of_nat c) = Ok (partial_sum x (S c)).
Proof.
  intros Hx Hc Hov. unfold poisson_sum.
  replace (Z.of_nat c + 1)%Z with (0 + Z.of_nat (S c))%Z by lia.
  assert (Hgen : forall m, (m <= S c)%nat ->
            fold_left
              (fun acc k => s <- acc ;; t <- poisson_term x k ;; Ok (s + t))
              (py_range 0 (0 + Z.of_nat m)) (Ok 0)
            = Ok (partial_sum x m)).
  { induction m as [|m IH]; intro Hm.
    - now rewrite Z.add_0_r, py_range_nil.
    - rewrite py_range_snoc, fold_left_app, IH by lia.
      cbn [fold_left bind]. rewrite Z.add_0_l.
      rewrite poisson_term_ok; [reflexivity | lia |].
      apply (pow_fits x m c); [assumption | lia | assumption]. }
  apply Hgen. lia.
Qed.

Lemma erlang_c_finite (load : Q) (n : nat) :
  0 <= load -> load < inject_Z (Z.of_nat (S n)) -> (S n <= 170)%nat ->
  overflows (load ^ Z.of_nat (S n)) = false ->
  calculate_erlang_c load (Z.of_nat (S n))
  = Ok (Fin (erlang_c_numerator load (S n) / erlang_c_denominator load (S n))).
Proof.
  intros Hl Hc Hn Hov. unfold calculate_erlang_c.
  replace (Qle_bool (inject_Z (Z.of_nat (S n))) load) with false
    by (symmetry; now apply Qle_bool_false).
  unfold erlang_c_try_body.
  rewrite math_pow_ok by assumption. cbn [bind].
  rewrite math_factorial_ok, Nat2Z.id by lia. cbn [bind].
  unfold div_float_int. rewrite float_of_int_ok by now apply fact_upto_fits.
  cbn [bind]. rewrite pydiv_ok
    by (pose proof (inject_Z_pos _ (fact_upto_pos (S n))); lra).
  cbn [bind]. rewrite float_of_int_ok by (apply small_int_fits; lia).
  cbn [bind]. rewrite pydiv_ok by lra. cbn [bind].
  rewrite poisson_sum_ok by (assumption || lia). cbn [bind].
  rewrite pydiv_ok; [reflexivity|].
  pose proof (erlang_c_denominator_pos load n Hl Hc) as HD.
  unfold erlang_c_denominator, erlang_c_numerator, term in HD.
  intro Hz. rewrite Hz in HD. discriminate HD.
Qed.

Lemma positive_channels (load : Q) (channels : Z) :
  0 <= load -> load < inject_Z channels ->
  channels = Z.of_nat (S (Z.to_nat (channels - 1))).
Proof.
  intros Hl Hc.
  assert (H : inject_Z 0 < inject_Z channels)
    by (eapply Qle_lt_trans; [exact Hl | exact Hc]).
  rewrite <- Zlt_Qlt in H. lia.
Qed.

(** Below saturation [calculate_erlang_c] returns [float('inf')] exactly
    when the channel count is 171 or more (its factorial has no double) or
    [load ** channels] leaves the double range; otherwise the result is
    finite. *)
Theorem erlang_c_inf_iff (load : Q) (channels : Z) :
  0 <= load -> load < inject_Z channels ->
  (calculate_erlang_c load channels = Ok PInf
   <-> (171 <= channels)%Z \/ overflows (load ^ channels) = true).
Proof.
  intros Hl Hc. pose proof (positive_channels load channels Hl Hc) as Hch.
  split.
  - intro Hinf.
    destruct (Z.le_gt_cases 171 channels) as [H171 | H170]; [now left|].
    right. destruct (overflows (load ^ channels)) eqn:Hov; [reflexivity|].
    exfalso. rewrite Hch in Hinf, Hc, Hov.
    rewrite erlang_c_finite in Hinf by (assumption || lia).
    discriminate Hinf.
  - intros [H171 | Hov].
    + now apply erlang_c_inf_from_171_channels.
    + apply erlang_c_handler; [exact Hc|].
      unfold erlang_c_try_body, math_pow.
      destruct (float_of_int_cases channels) as [-> | ->]; [reflexivity|].
      cbn [bind].
      replace (channels <? 0)%Z with false by (symmetry; apply Z.ltb_ge; lia).
      now rewrite andb_false_r, Hov.
Qed.

Lemma running_d_pos (erlangs : Q) (n : nat) :
  0 < erlangs -> 0 < running_d erlangs n.
Proof.
  intro He. induction n as [|n IH]; [reflexivity|].
  rewrite running_d_S.
  assert (0 < erlangs / inject_Z (Z.of_nat (S n))).
  { apply Qlt_shift_div_l; [apply inject_nat_pos|]. lra. }
  nra.
Qed.

Lemma erlang_c_value_bounds (load : Q) (channels : Z) :
  0 <= load -> load < inject_Z channels ->
  calculate_erlang_c load channels = Ok PInf
  \/ exists q : Q,
       calculate_erlang_c load channels = Ok (Fin q) /\ 0 <= q /\ q < 1.
Proof.
  intros Hl Hc. pose proof (positive_channels load channels Hl Hc) as Hch.
  set (n := Z.to_nat (channels - 1)) in *. rewrite Hch in Hc |- *.
  destruct (erlang_c_cases load n Hl Hc) as [Hinf | Hfin]; [now left|].
  right. eexists. split; [exact Hfin|].
  pose proof (erlang_c_numerator_nonneg load n Hl Hc) as HN.
  pose proof (erlang_c_denominator_pos load n Hl Hc) as HD.
  assert (HND : erlang_c_numerator load (S n) < erlang_c_denominator load (S n)).
  { unfold erlang_c_denominator. rewrite partial_sum_running_e.
    pose proof (running_e_pos load Hl (S n)). lra. }
  split.
  - apply Qle_shift_div_l; lra.
  - apply Qlt_shift_div_r; lra.
Qed.

(** Below saturation the call does not raise: the result is [float('inf')]
    or a number in [0, 1), which is 0 when the load is 0. *)
Theorem erlang_c_is_inf_or_probability (load : Q) (channels : Z) :
  0 <= load -> load < inject_Z channels ->
  calculate_erlang_c load channels = Ok PInf
  \/ exists q : Q,
       calculate_erlang_c load channels = Ok (Fin q)
       /\ 0 <= q /\ q < 1 /\ (load == 0 -> q == 0).
Proof.
  intros Hl Hc.
  destruct (erlang_c_value_bounds load channels Hl Hc)
    as [Hinf | (q & Hq & Hq0 & Hq1)]; [now left|].
  right. exists q. repeat split; try assumption.
  intro Hz.
  pose proof (positive_channels load channels Hl Hc) as Hch.
  set (n := Z.to_nat (channels - 1)) in *. rewrite Hch in Hc, Hq.
  destruct (erlang_c_cases load n Hl Hc) as [Hinf | Hfin];
    [rewrite Hinf in Hq; discriminate Hq|].
  rewrite Hfin in Hq. injection Hq as <-.
  assert (Hr : load / inject_Z (Z.of_nat (S n)) == 0)
    by (rewrite Hz; reflexivity).
  assert (Hd : running_d load (S n) == 0).
  { rewrite running_d_S, Hr. ring. }
  unfold erlang_c_numerator. rewrite term_running_d, Hd.
  unfold Qdiv. ring.
Qed.

Lemma erlang_c_is_inf_or_probability_witness :
  0 <= 10 /\ 10 < inject_Z 15 /\
  (calculate_erlang_c 10 15 = Ok PInf
   \/ exists q : Q,
        calculate_erlang_c 10 15 = Ok (Fin q)
        /\ 0 <= q /\ q < 1 /\ (10 == 0 -> q == 0)).
Proof.
  split; [discriminate|]. split; [reflexivity|].
  apply (erlang_c_is_inf_or_probability 10 15); [discriminate | reflexivity].
Defined.

Lemma erlang_c_inf_iff_witness :
  0 <= 169 /\ 169 < inject_Z 170 /\
  (calculate_erlang_c 169 170 = Ok PInf
   <-> (171 <= 170)%Z \/ overflows (169 ^ 170) = true).
Proof.
  split; [discriminate|]. split; [reflexivity|].
  apply (erlang_c_inf_iff 169 170); [discriminate | reflexivity].
Defined.

Lemma erlang_c_dominates_blocking_witness :
  0 < 10 /\ 10 < inject_Z 15 /\
  exists (x : pyfloat) (b : Q),
    calculate_erlang_c 10 15 = Ok x
    /\ calculate_blocking_probability 10 15 = Ok b
    /\ pyfloat_ge x b.
Proof.
  split; [reflexivity|]. split; [reflexivity|].
  apply (erlang_c_dominates_blocking 10 15); reflexivity.
Defined.

Lemma calculate_erlang_b_least_channels_code_witness :
  0 < 5 /\ 0 < 1 # 100 /\ 1 # 100 < 1 /\
  exists (c : Z) (b : Q),
    (forall fuel, (fuel_bound 5 (1 # 100) <= fuel)%nat ->
       calculate_erlang_b fuel 5 (1 # 100) = Some (Ok c))
    /\ calculate_blocking_probability 5 c = Ok b /\ b < 1 # 100
    /\ (forall c', (1 <= c' < c)%Z ->
          exists b', calculate_blocking_probability 5 c' = Ok b'
                     /\ 1 # 100 <= b').
Proof.
  split; [reflexivity|]. split; [reflexivity|]. split; [reflexivity|].
  apply (calculate_erlang_b_least_channels_code 5 (1 # 100)); reflexivity.
Defined.

(** ** calculate_waiting_time *)

Lemma exact_int_fits (n : Z) :
  (Z.abs n <= MAX_EXACT_INT)%Z -> (Z.abs n < DBL_OVERFLOW)%Z.
Proof.
  intro H.
  assert (H0 : (MAX_EXACT_INT < DBL_OVERFLOW)%Z) by (now vm_compute).
  lia.
Qed.

Lemma erlang_c_saturated (load : Q) (channels : Z) :
  inject_Z channels <= load -> calculate_erlang_c load channels = Ok (Fin 1).
Proof.
  intro H. unfold calculate_erlang_c.
  now replace (Qle_bool (inject_Z channels) load) with true
    by (symmetry; now apply Qle_bool_iff).
Qed.

Lemma waiting_time_saturated (load : Q) (channels : Z) (m : Q) :
  inject_Z channels <= load -> calculate_waiting_time load channels m = Ok PInf.
Proof.
  intro H. unfold calculate_waiting_time.
  rewrite erlang_c_saturated by assumption. cbn [bind].
  now replace (Qltb load (inject_Z channels)) with false
    by (symmetry; now apply Qltb_false).
Qed.

(** When [calculate_utilization] reports 1 or more for a positive channel
    count (up to [2^53], where the count is its own double),
    [calculate_erlang_c] returns the saturation value 1,
    [calculate_waiting_time] returns [float('inf')] for every service time
    and [calculate_service_level] returns 0 for every target time, without
    calling [math.exp]. *)
Theorem full_utilization_saturates (load : Q) (channels : Z) (u : Q) :
  (0 < channels <= MAX_EXACT_INT)%Z ->
  calculate_utilization load channels = Ok u -> 1 <= u ->
  calculate_erlang_c load channels = Ok (Fin 1)
  /\ (forall m : Q, calculate_waiting_time load channels m = Ok PInf)
  /\ (forall math_exp t,
        calculate_service_level math_exp load channels t = Ok (Fin 0)).
Proof.
  intros [Hc _] Hu H1.
  assert (Hsat : inject_Z channels <= load).
  { unfold calculate_utilization in Hu.
    replace (0 <? channels)%Z with true in Hu
      by (symmetry; apply Z.ltb_lt; lia).
    pose proof (inject_Z_pos channels Hc) as Hpos.
    destruct (div_float_int_cases load channels Hc) as [Hd | Hd];
      rewrite Hd in Hu; [discriminate Hu|].
    injection Hu as <-.
    apply (Qmult_le_r _ _ (inject_Z channels) Hpos) in H1.
    setoid_replace (load / inject_Z channels * inject_Z channels)
      with load in H1 by (field; lra).
    lra. }
  split; [now apply erlang_c_saturated|]. split.
  - intro m. now apply waiting_time_saturated.
  - intros math_exp t. unfold calculate_service_level.
    rewrite erlang_c_saturated by assumption. cbn [bind].
    now replace (Qltb load (inject_Z channels)) with false
      by (symmetry; now apply Qltb_false).
Qed.

Lemma full_utilization_saturates_witness :
  (0 < 10 <= MAX_EXACT_INT)%Z /\
  calculate_utilization 12 10 = Ok (12 / inject_Z 10) /\
  1 <= 12 / inject_Z 10 /\
  calculate_erlang_c 12 10 = Ok (Fin 1)
  /\ (forall m : Q, calculate_waiting_time 12 10 m = Ok PInf)
  /\ (forall math_exp t,
        calculate_service_level math_exp 12 10 t = Ok (Fin 0)).
Proof.
  split; [split; [lia | now vm_compute]|].
  split; [reflexivity|]. split; [discriminate|].
  apply (full_utilization_saturates 12 10 (12 / inject_Z 10));
    [split; [lia | now vm_compute] | reflexivity | discriminate].
Defined.

(** From 171 channels on (up to [2^53], where the channel count is its own
    double), the infinite delay probability is multiplied by the service
    time: the waiting time is [inf] for a positive service time, [nan] for
    a zero one and [-inf] for a negative one. *)
Theorem waiting_time_on_overflow (load : Q) (channels : Z) (m : Q) :
  0 <= load -> load < inject_Z channels ->
  (171 <= channels <= MAX_EXACT_INT)%Z ->
  (0 < m -> calculate_waiting_time load channels m = Ok PInf)
  /\ (m == 0 -> calculate_waiting_time load channels m = Ok NaN)
  /\ (m < 0 -> calculate_waiting_time load channels m = Ok NInf).
Proof.
  intros Hl Hc Hch.
  assert (Hfit : (Z.abs channels < DBL_OVERFLOW)%Z)
    by (apply exact_int_fits; lia).
  assert (Hwt : calculate_waiting_time load channels m
                = Ok (pyfloat_mul PInf m)).
  { unfold calculate_waiting_time.
    rewrite erlang_c_inf_from_171_channels by (assumption || lia).
    cbn [bind].
    replace (Qltb load (inject_Z channels)) with true
      by (symmetry; now apply Qltb_true).
    rewrite float_of_int_ok by exact Hfit. cbn [bind].
    unfold pyfloat_div.
    rewrite Qeq_bool_false by lra.
    replace (Qltb 0 (inject_Z channels - load)) with true
      by (symmetry; apply Qltb_true; lra).
    reflexivity. }
  rewrite Hwt. unfold pyfloat_mul. split; [|split]; intro Hm.
  - rewrite Qeq_bool_false by lra.
    now replace (Qltb 0 m) with true by (symmetry; now apply Qltb_true).
  - apply Qeq_bool_iff in Hm. now rewrite Hm.
  - rewrite Qeq_bool_false by lra.
    now replace (Qltb 0 m) with false
      by (symmetry; apply Qltb_false; lra).
Qed.

Lemma waiting_time_on_overflow_witness :
  0 <= 1 /\ 1 < inject_Z 171 /\ (171 <= 171 <= MAX_EXACT_INT)%Z /\
  (0 < 0 -> calculate_waiting_time 1 171 0 = Ok PInf)
  /\ (0 == 0 -> calculate_waiting_time 1 171 0 = Ok NaN)
  /\ (0 < 0 -> calculate_waiting_time 1 171 0 = Ok NInf).
Proof.
  split; [discriminate|]. split; [reflexivity|].
  split; [split; [lia | now vm_compute]|].
  apply (waiting_time_on_overflow 1 171 0);
    [discriminate | reflexivity | split; [lia | now vm_compute]].
Defined.



(** ** Utilization, intensity and occupancy *)

Lemma div_float_int_ok (a : Q) (n : Z) :
  (0 < n < DBL_OVERFLOW)%Z -> div_float_int a n = Ok (a / inject_Z n).
Proof.
  intro Hn. unfold div_float_int. rewrite float_of_int_ok by lia.
  cbn [bind]. apply pydiv_ok. pose proof (inject_Z_pos n (proj1 Hn)). lra.
Qed.

(** On the traffic carried at the blocking probability of [channels]
    channels, the utilization is strictly between 0 and 1. *)
Theorem carried_traffic_utilization (load : Q) (channels : Z) :
  0 < load -> (1 <= channels < DBL_OVERFLOW)%Z ->
  exists b u : Q,
    calculate_blocking_probability load channels = Ok b
    /\ calculate_utilization (calculate_effective_traffic load b) channels
       = Ok u
    /\ 0 < u /\ u < 1.
Proof.
  intros Hl Hc. do 2 eexists.
  split; [apply blocking_probability_ok; [exact Hl | lia]|].
  split.
  - unfold calculate_utilization.
    replace (0 <? channels)%Z with true by (symmetry; apply Z.ltb_lt; lia).
    apply div_float_int_ok. lia.
  - replace (Z.to_nat channels) with (S (Z.to_nat (channels - 1))) by lia.
    set (n := Z.to_nat (channels - 1)).
    replace (inject_Z channels) with (inject_Z (Z.of_nat (S n)))
      by (f_equal; unfold n; lia).
    destruct (carried_traffic_aux load n Hl) as (H0 & _ & H1).
    pose proof (inject_nat_pos n) as Hk.
    unfold calculate_effective_traffic. split.
    + apply Qlt_shift_div_l; lra.
    + apply Qlt_shift_div_r; lra.
Qed.

Lemma carried_traffic_utilization_witness :
  0 < 10 /\ (1 <= 3 < DBL_OVERFLOW)%Z /\
  exists b u : Q,
    calculate_blocking_probability 10 3 = Ok b
    /\ calculate_utilization (calculate_effective_traffic 10 b) 3 = Ok u
    /\ 0 < u /\ u < 1.
Proof.
  split; [reflexivity|]. split; [split; [lia | now vm_compute]|].
  apply (carried_traffic_utilization 10 3);
    [reflexivity | split; [lia | now vm_compute]].
Defined.

(** Traffic intensity and agent occupancy are the utilization in percent:
    whenever [calculate_utilization] returns [u], both return [u * 100]. *)
Theorem intensity_and_occupancy_are_utilization (erlangs : Q) (channels : Z)
    (u : Q) :
  calculate_utilization erlangs channels = Ok u ->
  exists r : Q,
    calculate_traffic_intensity erlangs channels = Ok r
    /\ calculate_agent_occupancy erlangs channels = Ok r
    /\ r == u * 100.
Proof.
  unfold calculate_utilization, calculate_traffic_intensity,
    calculate_agent_occupancy.
  destruct (0 <? channels)%Z.
  - intro Hu. rewrite Hu. cbn [bind]. eexists.
    split; [reflexivity|]. split; reflexivity.
  - intro Hu. injection Hu as <-. exists 0.
    split; [reflexivity|]. split; reflexivity.
Qed.

Lemma intensity_and_occupancy_are_utilization_witness :
  calculate_utilization 12 10 = Ok (12 / inject_Z 10) /\
  exists r : Q,
    calculate_traffic_intensity 12 10 = Ok r
    /\ calculate_agent_occupancy 12 10 = Ok r
    /\ r == 12 / inject_Z 10 * 100.
Proof.
  split; [reflexivity|].
  apply (intensity_and_occupancy_are_utilization 12 10 (12 / inject_Z 10)).
  reflexivity.
Defined.



(** ** Percentages of call counts *)

Lemma div_int_int_fraction (part total : Z) :
  (0 <= part <= total)%Z -> (0 < total)%Z ->
  div_int_int part total = Ok (inject_Z part / inject_Z total)
  /\ 0 <= inject_Z part / inject_Z total <= 1.
Proof.
  intros Hp Ht.
  pose proof (inject_Z_pos total Ht) as Htq.
  assert (Hp0 : 0 <= inject_Z part).
  { change 0 with (inject_Z 0). rewrite <- Zle_Qle. lia. }
  assert (Hpt : inject_Z part <= inject_Z total) by (rewrite <- Zle_Qle; lia).
  assert (Hq : 0 <= inject_Z part / inject_Z total <= 1).
  { split; [apply Qle_shift_div_l | apply Qle_shift_div_r]; lra. }
  split; [|exact Hq].
  unfold div_int_int.
  replace (total =? 0)%Z with false by (symmetry; apply Z.eqb_neq; lia).
  rewrite overflows_false; [reflexivity|].
  rewrite Qabs_pos by apply Hq.
  eapply Qle_lt_trans; [apply Hq|]. reflexivity.
Qed.

(** Completion rate, network efficiency and abandonment rate are one
    function: for counts [0 <= part <= total] (a zero total included) they
    return the same percentage, between 0 and 100, and do not raise. *)
Theorem call_percentages_in_range (part total : Z) :
  (0 <= part <= total)%Z ->
  exists r : Q,
    calculate_call_completion_rate part total = Ok r
    /\ calculate_network_efficiency part total = Ok r
    /\ calculate_call_abandonment_rate part total = Ok r
    /\ 0 <= r /\ r <= 100.
Proof.
  intro Hp.
  unfold calculate_call_completion_rate, calculate_network_efficiency,
    calculate_call_abandonment_rate.
  destruct (Z.ltb_spec 0 total) as [Ht | Ht].
  - destruct (div_int_int_fraction part total Hp Ht) as [-> Hq].
    cbn [bind]. eexists. repeat split; lra.
  - exists 0. repeat split; discriminate.
Qed.

Lemma call_percentages_in_range_witness :
  (0 <= 45 <= 50)%Z /\
  exists r : Q,
    calculate_call_completion_rate 45 50 = Ok r
    /\ calculate_network_efficiency 45 50 = Ok r
    /\ calculate_call_abandonment_rate 45 50 = Ok r
    /\ 0 <= r /\ r <= 100.
Proof.
  split; [lia|]. apply (call_percentages_in_range 45 50). lia.
Defined.

(** When every call is either completed or abandoned, the completion rate
    and the abandonment rate add up to 100. *)
Theorem completion_plus_abandonment (completed abandoned : Z) :
  (0 <= completed)%Z -> (0 <= abandoned)%Z -> (0 < completed + abandoned)%Z ->
  exists r1 r2 : Q,
    calculate_call_completion_rate completed (completed + abandoned) = Ok r1
    /\ calculate_call_abandonment_rate abandoned (completed + abandoned)
       = Ok r2
    /\ r1 + r2 == 100.
Proof.
  intros Hc Ha Ht.
  unfold calculate_call_completion_rate, calculate_call_abandonment_rate.
  replace (0 <? completed + abandoned)%Z with true
    by (symmetry; apply Z.ltb_lt; lia).
  destruct (div_int_int_fraction completed (completed + abandoned))
    as [-> _]; [lia | lia |].
  destruct (div_int_int_fraction abandoned (completed + abandoned))
    as [-> _]; [lia | lia |].
  cbn [bind]. do 2 eexists. split; [reflexivity|]. split; [reflexivity|].
  pose proof (inject_Z_pos _ Ht) as Hpos.
  rewrite inject_Z_plus in *. field. lra.
Qed.

Lemma completion_plus_abandonment_witness :
  (0 <= 45)%Z /\ (0 <= 5)%Z /\ (0 < 45 + 5)%Z /\
  exists r1 r2 : Q,
    calculate_call_completion_rate 45 (45 + 5) = Ok r1
    /\ calculate_call_abandonment_rate 5 (45 + 5) = Ok r2
    /\ r1 + r2 == 100.
Proof.
  split; [lia|]. split; [lia|]. split; [lia|].
  apply (completion_plus_abandonment 45 5); lia.
Defined.



(** ** Peak-hour call attempts *)

(** [calculate_peak_hour_call_attempts] has no guard: it raises
    [ZeroDivisionError] exactly for a zero call duration, and otherwise the
    attempts per minute times the duration give the traffic back. *)
Theorem peak_hour_call_attempts_outcomes (busy_hour_traffic avg_call_duration : Q) :
  (calculate_peak_hour_call_attempts busy_hour_traffic avg_call_duration
   = Raise ZeroDivisionError <-> avg_call_duration == 0)
  /\ (~ avg_call_duration == 0 ->
      exists a : Q,
        calculate_peak_hour_call_attempts busy_hour_traffic avg_call_duration
        = Ok a
        /\ calculate_offered_load (a / 60) avg_call_duration
           == busy_hour_traffic).
Proof.
  unfold calculate_peak_hour_call_attempts. split.
  - split.
    + intro H. destruct (Qeq_dec avg_call_duration 0) as [Hz | Hz];
        [exact Hz|].
      rewrite pydiv_ok in H by exact Hz. discriminate H.
    + intro Hz. now rewrite pydiv_zero.
  - intro Hz. rewrite pydiv_ok by exact Hz. cbn [bind].
    eexists. split; [reflexivity|].
    unfold calculate_offered_load. field. exact Hz.
Qed.

(** Fed back to [calculate_erlang] as calls per hour, with no hold time and
    the duration in seconds, the peak-hour attempts give the traffic back
    up to the rounding to four decimals. *)
Theorem peak_hour_attempts_round_trip (busy_hour_traffic avg_call_duration : Q) :
  0 <= busy_hour_traffic -> 0 < avg_call_duration ->
  exists a r : Q,
    calculate_peak_hour_call_attempts busy_hour_traffic avg_call_duration
    = Ok a
    /\ calculate_erlang a 0 (avg_call_duration * 60) = Ok r
    /\ Qabs (r - busy_hour_traffic) <= 1 # 20000.
Proof.
  intros Ht Hd. do 2 eexists. split; [|split].
  - unfold calculate_peak_hour_call_attempts.
    rewrite pydiv_ok by lra. reflexivity.
  - apply calculate_erlang_ok; [|discriminate|lra].
    assert (0 <= 60 / avg_call_duration)
      by (apply Qle_shift_div_l; lra).
    nra.
  - assert (Hsame : busy_hour_traffic * (60 / avg_call_duration)
                    * ((0 + avg_call_duration * 60) / 60) / 60
                    == busy_hour_traffic) by (field; lra).
    pose proof (py_round_4_close
                  (busy_hour_traffic * (60 / avg_call_duration)
                   * ((0 + avg_call_duration * 60) / 60) / 60)) as Hclose.
    apply Qabs_Qle_condition. rewrite Hsame in Hclose at 2 4.
    exact Hclose.
Qed.

Lemma peak_hour_attempts_round_trip_witness :
  0 <= 5 /\ 0 < 3 /\
  exists a r : Q,
    calculate_peak_hour_call_attempts 5 3 = Ok a
    /\ calculate_erlang a 0 (3 * 60) = Ok r
    /\ Qabs (r - 5) <= 1 # 20000.
Proof.
  split; [discriminate|]. split; [reflexivity|].
  apply (peak_hour_attempts_round_trip 5 3); [discriminate | reflexivity].
Defined.

(** ** calculate_service_level *)

(** Below saturation, with a finite delay probability and a value of
    [math.exp] in [0, 1] (what it returns on the non-positive argument of a
    non-negative target time), the service level is a percentage above 0
    and at most 100. *)
Theorem service_level_in_range (math_exp : Q -> result Q)
    (load : Q) (channels : Z) (target_time q v : Q) :
  0 <= load -> load < inject_Z channels ->
  calculate_erlang_c load channels = Ok (Fin q) ->
  math_exp (- (inject_Z channels - load) * target_time) = Ok v ->
  0 <= v -> v <= 1 ->
  exists s : Q,
    calculate_service_level math_exp load channels target_time = Ok (Fin s)
    /\ s == (1 - q * v) * 100 /\ 0 < s /\ s <= 100.
Proof.
  intros Hl Hc Hq Hv Hv0 Hv1.
  assert (H170 : (channels <= 170)%Z).
  { destruct (Z.le_gt_cases 171 channels) as [H171 | H]; [|lia].
    rewrite erlang_c_inf_from_171_channels in Hq by assumption.
    discriminate Hq. }
  pose proof (positive_channels load channels Hl Hc) as Hch.
  destruct (erlang_c_value_bounds load channels Hl Hc)
    as [Hinf | (q' & Hq' & Hq0 & Hq1)];
    [rewrite Hinf in Hq; discriminate Hq|].
  rewrite Hq in Hq'. injection Hq' as <-.
  eexists. split.
  - unfold calculate_service_level. rewrite Hq. cbn [bind].
    replace (Qltb load (inject_Z channels)) with true
      by (symmetry; now apply Qltb_true).
    rewrite float_of_int_ok by (apply small_int_fits; lia). cbn [bind].
    rewrite Hv. reflexivity.
  - split; [reflexivity|]. split; nra.
Qed.

Lemma service_level_in_range_witness :
  0 <= 1 /\ 1 < inject_Z 2 /\
  calculate_erlang_c 1 2 = Ok (Fin (8 # 28)) /\
  (fun x : Q => Ok (1 / (1 - x))) (- (inject_Z 2 - 1) * 3) = Ok (1 # 4) /\
  0 <= 1 # 4 /\ 1 # 4 <= 1 /\
  exists s : Q,
    calculate_service_level (fun x : Q => Ok (1 / (1 - x))) 1 2 3
    = Ok (Fin s)
    /\ s == (1 - (8 # 28) * (1 # 4)) * 100 /\ 0 < s /\ s <= 100.
Proof.
  split; [discriminate|]. split; [reflexivity|]. split; [now vm_compute|].
  split; [now vm_compute|]. split; [discriminate|]. split; [discriminate|].
  apply (service_level_in_range (fun x : Q => Ok (1 / (1 - x))) 1 2 3
           (8 # 28) (1 # 4));
    [discriminate | reflexivity | now vm_compute | now vm_compute
    | discriminate | discriminate].
Defined.

(** From 171 channels on the infinite delay probability reaches the
    result: the service level is [-inf] when [math.exp] returns a positive
    value and [nan] when it underflows to 0. *)
Theorem service_level_on_overflow (math_exp : Q -> result Q)
    (load : Q) (channels : Z) (target_time v : Q) :
  0 <= load -> load < inject_Z channels ->
  (171 <= channels < DBL_OVERFLOW)%Z ->
  math_exp (- (inject_Z channels - load) * target_time) = Ok v -> 0 <= v ->
  (0 < v ->
   calculate_service_level math_exp load channels target_time = Ok NInf)
  /\ (v == 0 ->
      calculate_service_level math_exp load channels target_time = Ok NaN).
Proof.
  intros Hl Hc Hch Hv Hv0.
  assert (Hsl : calculate_service_level math_exp load channels target_time
                = Ok (pyfloat_mul (pyfloat_rsub 1 (pyfloat_mul PInf v)) 100)).
  { unfold calculate_service_level.
    rewrite erlang_c_inf_from_171_channels by (assumption || lia).
    cbn [bind].
    replace (Qltb load (inject_Z channels)) with true
      by (symmetry; now apply Qltb_true).
    rewrite float_of_int_ok by lia. cbn [bind]. now rewrite Hv. }
  rewrite Hsl. split; intro H.
  - unfold pyfloat_mul at 2. rewrite Qeq_bool_false by lra.
    replace (Qltb 0 v) with true by (symmetry; now apply Qltb_true).
    reflexivity.
  - unfold pyfloat_mul at 2. apply Qeq_bool_iff in H. now rewrite H.
Qed.

Lemma service_level_on_overflow_witness :
  0 <= 1 /\ 1 < inject_Z 171 /\ (171 <= 171 < DBL_OVERFLOW)%Z /\
  (fun x : Q => Ok (1 / (1 - x))) (- (inject_Z 171 - 1) * 0) = Ok (1 / (1 - 0))
  /\ 0 <= 1 / (1 - 0) /\
  (0 < 1 / (1 - 0) ->
   calculate_service_level (fun x : Q => Ok (1 / (1 - x))) 1 171 0 = Ok NInf)
  /\ (1 / (1 - 0) == 0 ->
      calculate_service_level (fun x : Q => Ok (1 / (1 - x))) 1 171 0
      = Ok NaN).
Proof.
  split; [discriminate|]. split; [reflexivity|].
  split; [split; [lia | now vm_compute]|].
  split; [now vm_compute|]. split; [discriminate|].
  apply (service_level_on_overflow (fun x : Q => Ok (1 / (1 - x))) 1 171 0
           (1 / (1 - 0)));
    [discriminate | reflexivity | split; [lia | now vm_compute]
    | now vm_compute | discriminate].
Defined.

(** ** The program on binary64 floats *)

Lemma erlang_b_loop_f64_fuel_mono (erlangs goal : float) (fuel : nat) :
  forall (fuel' : nat) (channel : Z) (d e : float) (r : result Z),
  (fuel <= fuel')%nat ->
  erlang_b_loop_f64 fuel erlangs goal channel d e = Some r ->
  erlang_b_loop_f64 fuel' erlangs goal channel d e = Some r.
Proof.
  induction fuel as [|fuel IH]; intros fuel' channel d e r Hle Hrun.
  - discriminate.
  - destruct fuel' as [|fuel']; [lia|].
    cbn [erlang_b_loop_f64] in *.
    destruct (erlang_b_body_f64 erlangs channel d e) as [[[bp d'] e']|ex];
      [|exact Hrun].
    destruct (PrimFloat.ltb bp goal); [exact Hrun|].
    apply IH; [lia | exact Hrun].
Qed.

(** C6: on binary64 floats the search does not return the least channel
    count.  At [erlangs = 1000.0], goal [0.01], [previous_e] overflows to
    [inf], [block_percentage] becomes 0 and the loop returns 346 in its
    346th pass (not earlier), where [calculate_blocking_probability] gives
    a blocking above 0.5, not below the goal; at [erlangs = 1200.0] the
    loop has not returned after 5000 passes. *)
Theorem calculate_erlang_b_binary64_overflow :
  calculate_erlang_b_f64 346 1000 one_percent = Some (Ok 346%Z)
  /\ calculate_erlang_b_f64 345 1000 one_percent = None
  /\ (exists b : float,
        calculate_blocking_probability_f64 1000 346 = Ok b
        /\ PrimFloat.ltb b one_percent = false
        /\ PrimFloat.ltb 0.5 b = true)
  /\ calculate_erlang_b_f64 5000 1200 one_percent = None.
Proof.
  split; [now vm_compute|]. split; [now vm_compute|]. split.
  - eexists. split; [now vm_compute|]. split; now vm_compute.
  - now vm_compute.
Qed.

(** More passes do not change the answer 346. *)
Lemma calculate_erlang_b_binary64_any_fuel (fuel : nat) :
  (346 <= fuel)%nat ->
  calculate_erlang_b_f64 fuel 1000 one_percent = Some (Ok 346%Z).
Proof.
  intro Hf.
  assert (H : calculate_erlang_b_f64 346 1000 one_percent = Some (Ok 346%Z))
    by (now vm_compute).
  unfold calculate_erlang_b_f64 in *.
  destruct (PrimFloat.ltb 1000 0 || PrimFloat.leb one_percent 0
            || PrimFloat.leb 1 one_percent)%bool; [exact H|].
  now apply (erlang_b_loop_f64_fuel_mono _ _ 346).
Qed.

(** C7 as stated fails on binary64 floats: at [erlangs = 1.0] the loop value
    [b] overflows to [inf] from 171 channels on, so the blocking
    probability is 0.0 at 171 and at 172 channels, not strictly smaller. *)
Lemma blocking_probability_binary64_not_strict :
  calculate_blocking_probability_f64 1 171 = Ok 0%float
  /\ calculate_blocking_probability_f64 1 (171 + 1) = Ok 0%float
  /\ ~ (exists b1 b2 : float,
          calculate_blocking_probability_f64 1 171 = Ok b1
          /\ calculate_blocking_probability_f64 1 (171 + 1) = Ok b2
          /\ PrimFloat.ltb b2 b1 = true).
Proof.
  assert (H1 : calculate_blocking_probability_f64 1 171 = Ok 0%float)
    by (now vm_compute).
  assert (H2 : calculate_blocking_probability_f64 1 (171 + 1) = Ok 0%float)
    by (now vm_compute).
  split; [exact H1|]. split; [exact H2|].
  intros (b1 & b2 & Hb1 & Hb2 & Hlt).
  rewrite H1 in Hb1. rewrite H2 in Hb2.
  injection Hb1 as <-. injection Hb2 as <-.
  vm_compute in Hlt. discriminate Hlt.
Qed.
